(** * Khepera IV homeostatic decision model ([model.c])

    A shallow embedding of the decision-making core of [model.c]: the
    sensor window, the two damage heuristics, the physiological state
    update, the winner-takes-all arbitration, the behaviour dispatch and
    the control loop, followed by the properties established about them.

    Numbers are modelled as the C program has them on its target (the
    Khepera IV runs on an ARM Cortex-A8, gcc, [FLT_EVAL_METHOD = 0]):
    - [int] is a signed 32-bit integer, carried as a [Z];
    - [float] is IEEE-754 binary32 and [double] is binary64, both carried
      as [spec_float] and computed with the Standard Library's executable
      specification of IEEE arithmetic (round to nearest, ties to even);
    - an expression mixing [float] and [double] is evaluated in [double]
      and rounded when it is stored in a [float] object.

    The program is sequential but for the LED animation thread; it is
    modelled by state passing over one record holding the file-scope
    objects and the world around them: the calls made to the robot
    library, in order, and the values found in automatic objects that are
    read before being assigned. The frames of raw sensor magnitudes are
    arguments of the functions that read the sensors. *)

From Stdlib Require Import ZArith List Bool Lia.
From Stdlib Require Import Floats.SpecFloat.
Import ListNotations.
Local Open Scope Z_scope.

(** ** C arithmetic *)

Module CFloat.

Definition float := spec_float.
Definition double := spec_float.

(** Rounding of any finite value to the two formats. *)
Definition round_float (x : spec_float) : float :=
  match x with
  | S754_finite s m e => binary_normalize 24 128 (cond_Zopp s (Zpos m)) e s
  | _ => x
  end.

Definition round_double (x : spec_float) : double :=
  match x with
  | S754_finite s m e => binary_normalize 53 1024 (cond_Zopp s (Zpos m)) e s
  | _ => x
  end.

(** Conversions: [(double) f], [(float) d], [(float) n], [(double) n]. *)
Definition double_of_float (x : float) : double := round_double x.
Definition float_of_double (x : double) : float := round_float x.
Definition float_of_int (n : Z) : float := binary_normalize 24 128 n 0 false.
Definition double_of_int (n : Z) : double := binary_normalize 53 1024 n 0 false.

(** A decimal literal [num/den] of type [double]: the binary64 number
    nearest to the quotient. *)
Definition double_lit (num den : positive) : double :=
  SFdiv 53 1024 (S754_finite false num 0) (S754_finite false den 0).

Definition fadd : float -> float -> float := SFadd 24 128.
Definition fsub : float -> float -> float := SFsub 24 128.
Definition fmul : float -> float -> float := SFmul 24 128.
Definition fdiv : float -> float -> float := SFdiv 24 128.

Definition dadd : double -> double -> double := SFadd 53 1024.
Definition dsub : double -> double -> double := SFsub 53 1024.
Definition dmul : double -> double -> double := SFmul 53 1024.
Definition ddiv : double -> double -> double := SFdiv 53 1024.

(** [x > y], [x < y] and [x <= y]; all false when an operand is a NaN. *)
Definition gt (x y : spec_float) : bool := SFltb y x.
Definition lt (x y : spec_float) : bool := SFltb x y.
Definition le (x y : spec_float) : bool := SFleb x y.

Definition is_nan (x : spec_float) : bool :=
  match x with S754_nan => true | _ => false end.

Definition fzero : float := S754_zero false.
Definition fone : float := float_of_int 1.

End CFloat.

Module CInt.

Definition INT_MAX : Z := 2147483647.
Definition INT_MIN : Z := -2147483648.

(** Two's complement reduction of a result to [int]. *)
Definition wrap (z : Z) : Z := (z + 2147483648) mod 4294967296 - 2147483648.

Definition sub (x y : Z) : Z := wrap (x - y).

(** [abs] of [stdlib.h]: [abs(INT_MIN)] wraps to [INT_MIN]. *)
Definition abs (z : Z) : Z := wrap (Z.abs z).

(** Integer division of C truncates towards zero. *)
Definition div (x y : Z) : Z := Z.quot x y.

(** [(int) x] for a floating-point [x]: truncation towards zero; out of
    range the ARM conversion instruction saturates and maps NaN to 0. *)
Definition of_float (x : spec_float) : Z :=
  match x with
  | S754_zero _ => 0
  | S754_nan => 0
  | S754_infinity s => if s then INT_MIN else INT_MAX
  | S754_finite s m e =>
      let t := cond_Zopp s (Z.shiftl (Zpos m) e) in
      Z.max INT_MIN (Z.min INT_MAX t)
  end.

End CInt.

Import CFloat.

(** ** Constants of [model.c] *)

Definition TIME : Z := 100000.
Definition MAX_DIST : Z := 500.
Definition MIN_DIST : Z := 80.

(** [M_PI] of [math.h], the [double] nearest to pi. *)
Definition M_PI : double :=
  double_lit 314159265358979323846 100000000000000000000.

(** ** The robot and the program state *)

(** Calls that leave the decision core, in the order they are made. The
    [printf] calls and the periodic dump of the variables are not
    recorded. *)
Inductive event : Type :=
| Move (motor_left motor_right : float)   (* [move]: [kh4_set_speed] *)
| StopMoving                              (* [stop_moving] *)
| DamageAnimation                         (* [pthread_create] of [damage_animation] *)
| DeathAnimation                          (* [death_animation] *)
| Usleep (us : Z).

(** The file-scope objects of [model.c], then the world around them:
    [trace] is the sequence of outgoing calls so far;
    [indet] gives the values that automatic objects read before any
    assignment ([float mean;] in the two mean functions) happen to hold,
    in the order of the reads, and [indet_read] counts those reads.

    [_secure_led_animation] is written only by the animation thread; the
    sequential code below reads it and never assigns it. *)
Record state : Type := mkState {
  left_speed : float;
  right_speed : float;
  var_energy : float;
  var_tegument : float;
  var_integrity : float;
  def_energy : float;
  def_tegument : float;
  def_integrity : float;
  cue_energy : float;
  cue_tegument : float;
  cue_integrity : float;
  mot_energy : float;
  mot_tegument : float;
  mot_integrity : float;
  _secure_led_animation : Z;
  prev_sensors : list Z;
  sensors : list Z;
  speed : list float;
  circ_speed : list float;
  trace : list event;
  indet : nat -> float;
  indet_read : nat
}.

Definition set_left_speed (v : float) (st : state) : state :=
  {| left_speed := v; right_speed := right_speed st;
     var_energy := var_energy st; var_tegument := var_tegument st;
     var_integrity := var_integrity st; def_energy := def_energy st;
     def_tegument := def_tegument st; def_integrity := def_integrity st;
     cue_energy := cue_energy st; cue_tegument := cue_tegument st;
     cue_integrity := cue_integrity st; mot_energy := mot_energy st;
     mot_tegument := mot_tegument st; mot_integrity := mot_integrity st;
     _secure_led_animation := _secure_led_animation st;
     prev_sensors := prev_sensors st; sensors := sensors st;
     speed := speed st; circ_speed := circ_speed st; trace := trace st;
     indet := indet st; indet_read := indet_read st |}.

Definition set_right_speed (v : float) (st : state) : state :=
  {| left_speed := left_speed st; right_speed := v;
     var_energy := var_energy st; var_tegument := var_tegument st;
     var_integrity := var_integrity st; def_energy := def_energy st;
     def_tegument := def_tegument st; def_integrity := def_integrity st;
     cue_energy := cue_energy st; cue_tegument := cue_tegument st;
     cue_integrity := cue_integrity st; mot_energy := mot_energy st;
     mot_tegument := mot_tegument st; mot_integrity := mot_integrity st;
     _secure_led_animation := _secure_led_animation st;
     prev_sensors := prev_sensors st; sensors := sensors st;
     speed := speed st; circ_speed := circ_speed st; trace := trace st;
     indet := indet st; indet_read := indet_read st |}.

Definition set_var_energy (v : float) (st : state) : state :=
  {| left_speed := left_speed st; right_speed := right_speed st;
     var_energy := v; var_tegument := var_tegument st;
     var_integrity := var_integrity st; def_energy := def_energy st;
     def_tegument := def_tegument st; def_integrity := def_integrity st;
     cue_energy := cue_energy st; cue_tegument := cue_tegument st;
     cue_integrity := cue_integrity st; mot_energy := mot_energy st;
     mot_tegument := mot_tegument st; mot_integrity := mot_integrity st;
     _secure_led_animation := _secure_led_animation st;
     prev_sensors := prev_sensors st; sensors := sensors st;
     speed := speed st; circ_speed := circ_speed st; trace := trace st;
     indet := indet st; indet_read := indet_read st |}.

Definition set_var_tegument (v : float) (st : state) : state :=
  {| left_speed := left_speed st; right_speed := right_speed st;
     var_energy := var_energy st; var_tegument := v;
     var_integrity := var_integrity st; def_energy := def_energy st;
     def_tegument := def_tegument st; def_integrity := def_integrity st;
     cue_energy := cue_energy st; cue_tegument := cue_tegument st;
     cue_integrity := cue_integrity st; mot_energy := mot_energy st;
     mot_tegument := mot_tegument st; mot_integrity := mot_integrity st;
     _secure_led_animation := _secure_led_animation st;
     prev_sensors := prev_sensors st; sensors := sensors st;
     speed := speed st; circ_speed := circ_speed st; trace := trace st;
     indet := indet st; indet_read := indet_read st |}.

Definition set_var_integrity (v : float) (st : state) : state :=
  {| left_speed := left_speed st; right_speed := right_speed st;
     var_energy := var_energy st; var_tegument := var_tegument st;
     var_integrity := v; def_energy := def_energy st;
     def_tegument := def_tegument st; def_integrity := def_integrity st;
     cue_energy := cue_energy st; cue_tegument := cue_tegument st;
     cue_integrity := cue_integrity st; mot_energy := mot_energy st;
     mot_tegument := mot_tegument st; mot_integrity := mot_integrity st;
     _secure_led_animation := _secure_led_animation st;
     prev_sensors := prev_sensors st; sensors := sensors st;
     speed := speed st; circ_speed := circ_speed st; trace := trace st;
     indet := indet st; indet_read := indet_read st |}.

Definition set_def_energy (v : float) (st : state) : state :=
  {| left_speed := left_speed st; right_speed := right_speed st;
     var_energy := var_energy st; var_tegument := var_tegument st;
     var_integrity := var_integrity st; def_energy := v;
     def_tegument := def_tegument st; def_integrity := def_integrity st;
     cue_energy := cue_energy st; cue_tegument := cue_tegument st;
     cue_integrity := cue_integrity st; mot_energy := mot_energy st;
     mot_tegument := mot_tegument st; mot_integrity := mot_integrity st;
     _secure_led_animation := _secure_led_animation st;
     prev_sensors := prev_sensors st; sensors := sensors st;
     speed := speed st; circ_speed := circ_speed st; trace := trace st;
     indet := indet st; indet_read := indet_read st |}.

Definition set_def_tegument (v : float) (st : state) : state :=
  {| left_speed := left_speed st; right_speed := right_speed st;
     var_energy := var_energy st; var_tegument := var_tegument st;
     var_integrity := var_integrity st; def_energy := def_energy st;
     def_tegument := v; def_integrity := def_integrity st;
     cue_energy := cue_energy st; cue_tegument := cue_tegument st;
     cue_integrity := cue_integrity st; mot_energy := mot_energy st;
     mot_tegument := mot_tegument st; mot_integrity := mot_integrity st;
     _secure_led_animation := _secure_led_animation st;
     prev_sensors := prev_sensors st; sensors := sensors st;
     speed := speed st; circ_speed := circ_speed st; trace := trace st;
     indet := indet st; indet_read := indet_read st |}.

Definition set_def_integrity (v : float) (st : state) : state :=
  {| left_speed := left_speed st; right_speed := right_speed st;
     var_energy := var_energy st; var_tegument := var_tegument st;
     var_integrity := var_integrity st; def_energy := def_energy st;
     def_tegument := def_tegument st; def_integrity := v;
     cue_energy := cue_energy st; cue_tegument := cue_tegument st;
     cue_integrity := cue_integrity st; mot_energy := mot_energy st;
     mot_tegument := mot_tegument st; mot_integrity := mot_integrity st;
     _secure_led_animation := _secure_led_animation st;
     prev_sensors := prev_sensors st; sensors := sensors st;
     speed := speed st; circ_speed := circ_speed st; trace := trace st;
     indet := indet st; indet_read := indet_read st |}.

Definition set_cue_energy (v : float) (st : state) : state :=
  {| left_speed := left_speed st; right_speed := right_speed st;
     var_energy := var_energy st; var_tegument := var_tegument st;
     var_integrity := var_integrity st; def_energy := def_energy st;
     def_tegument := def_tegument st; def_integrity := def_integrity st;
     cue_energy := v; cue_tegument := cue_tegument st;
     cue_integrity := cue_integrity st; mot_energy := mot_energy st;
     mot_tegument := mot_tegument st; mot_integrity := mot_integrity st;
     _secure_led_animation := _secure_led_animation st;
     prev_sensors := prev_sensors st; sensors := sensors st;
     speed := speed st; circ_speed := circ_speed st; trace := trace st;
     indet := indet st; indet_read := indet_read st |}.

Definition set_cue_tegument (v : float) (st : state) : state :=
  {| left_speed := left_speed st; right_speed := right_speed st;
     var_energy := var_energy st; var_tegument := var_tegument st;
     var_integrity := var_integrity st; def_energy := def_energy st;
     def_tegument := def_tegument st; def_integrity := def_integrity st;
     cue_energy := cue_energy st; cue_tegument := v;
     cue_integrity := cue_integrity st; mot_energy := mot_energy st;
     mot_tegument := mot_tegument st; mot_integrity := mot_integrity st;
     _secure_led_animation := _secure_led_animation st;
     prev_sensors := prev_sensors st; sensors := sensors st;
     speed := speed st; circ_speed := circ_speed st; trace := trace st;
     indet := indet st; indet_read := indet_read st |}.

Definition set_cue_integrity (v : float) (st : state) : state :=
  {| left_speed := left_speed st; right_speed := right_speed st;
     var_energy := var_energy st; var_tegument := var_tegument st;
     var_integrity := var_integrity st; def_energy := def_energy st;
     def_tegument := def_tegument st; def_integrity := def_integrity st;
     cue_energy := cue_energy st; cue_tegument := cue_tegument st;
     cue_integrity := v; mot_energy := mot_energy st;
     mot_tegument := mot_tegument st; mot_integrity := mot_integrity st;
     _secure_led_animation := _secure_led_animation st;
     prev_sensors := prev_sensors st; sensors := sensors st;
     speed := speed st; circ_speed := circ_speed st; trace := trace st;
     indet := indet st; indet_read := indet_read st |}.

Definition set_mot_energy (v : float) (st : state) : state :=
  {| left_speed := left_speed st; right_speed := right_speed st;
     var_energy := var_energy st; var_tegument := var_tegument st;
     var_integrity := var_integrity st; def_energy := def_energy st;
     def_tegument := def_tegument st; def_integrity := def_integrity st;
     cue_energy := cue_energy st; cue_tegument := cue_tegument st;
     cue_integrity := cue_integrity st; mot_energy := v;
     mot_tegument := mot_tegument st; mot_integrity := mot_integrity st;
     _secure_led_animation := _secure_led_animation st;
     prev_sensors := prev_sensors st; sensors := sensors st;
     speed := speed st; circ_speed := circ_speed st; trace := trace st;
     indet := indet st; indet_read := indet_read st |}.

Definition set_mot_tegument (v : float) (st : state) : state :=
  {| left_speed := left_speed st; right_speed := right_speed st;
     var_energy := var_energy st; var_tegument := var_tegument st;
     var_integrity := var_integrity st; def_energy := def_energy st;
     def_tegument := def_tegument st; def_integrity := def_integrity st;
     cue_energy := cue_energy st; cue_tegument := cue_tegument st;
     cue_integrity := cue_integrity st; mot_energy := mot_energy st;
     mot_tegument := v; mot_integrity := mot_integrity st;
     _secure_led_animation := _secure_led_animation st;
     prev_sensors := prev_sensors st; sensors := sensors st;
     speed := speed st; circ_speed := circ_speed st; trace := trace st;
     indet := indet st; indet_read := indet_read st |}.

Definition set_mot_integrity (v : float) (st : state) : state :=
  {| left_speed := left_speed st; right_speed := right_speed st;
     var_energy := var_energy st; var_tegument := var_tegument st;
     var_integrity := var_integrity st; def_energy := def_energy st;
     def_tegument := def_tegument st; def_integrity := def_integrity st;
     cue_energy := cue_energy st; cue_tegument := cue_tegument st;
     cue_integrity := cue_integrity st; mot_energy := mot_energy st;
     mot_tegument := mot_tegument st; mot_integrity := v;
     _secure_led_animation := _secure_led_animation st;
     prev_sensors := prev_sensors st; sensors := sensors st;
     speed := speed st; circ_speed := circ_speed st; trace := trace st;
     indet := indet st; indet_read := indet_read st |}.

Definition set_prev_sensors (v : list Z) (st : state) : state :=
  {| left_speed := left_speed st; right_speed := right_speed st;
     var_energy := var_energy st; var_tegument := var_tegument st;
     var_integrity := var_integrity st; def_energy := def_energy st;
     def_tegument := def_tegument st; def_integrity := def_integrity st;
     cue_energy := cue_energy st; cue_tegument := cue_tegument st;
     cue_integrity := cue_integrity st; mot_energy := mot_energy st;
     mot_tegument := mot_tegument st; mot_integrity := mot_integrity st;
     _secure_led_animation := _secure_led_animation st; prev_sensors := v;
     sensors := sensors st; speed := speed st; circ_speed := circ_speed st;
     trace := trace st; indet := indet st; indet_read := indet_read st |}.

Definition set_sensors (v : list Z) (st : state) : state :=
  {| left_speed := left_speed st; right_speed := right_speed st;
     var_energy := var_energy st; var_tegument := var_tegument st;
     var_integrity := var_integrity st; def_energy := def_energy st;
     def_tegument := def_tegument st; def_integrity := def_integrity st;
     cue_energy := cue_energy st; cue_tegument := cue_tegument st;
     cue_integrity := cue_integrity st; mot_energy := mot_energy st;
     mot_tegument := mot_tegument st; mot_integrity := mot_integrity st;
     _secure_led_animation := _secure_led_animation st;
     prev_sensors := prev_sensors st; sensors := v; speed := speed st;
     circ_speed := circ_speed st; trace := trace st; indet := indet st;
     indet_read := indet_read st |}.

Definition set_speed (v : list float) (st : state) : state :=
  {| left_speed := left_speed st; right_speed := right_speed st;
     var_energy := var_energy st; var_tegument := var_tegument st;
     var_integrity := var_integrity st; def_energy := def_energy st;
     def_tegument := def_tegument st; def_integrity := def_integrity st;
     cue_energy := cue_energy st; cue_tegument := cue_tegument st;
     cue_integrity := cue_integrity st; mot_energy := mot_energy st;
     mot_tegument := mot_tegument st; mot_integrity := mot_integrity st;
     _secure_led_animation := _secure_led_animation st;
     prev_sensors := prev_sensors st; sensors := sensors st; speed := v;
     circ_speed := circ_speed st; trace := trace st; indet := indet st;
     indet_read := indet_read st |}.

Definition set_circ_speed (v : list float) (st : state) : state :=
  {| left_speed := left_speed st; right_speed := right_speed st;
     var_energy := var_energy st; var_tegument := var_tegument st;
     var_integrity := var_integrity st; def_energy := def_energy st;
     def_tegument := def_tegument st; def_integrity := def_integrity st;
     cue_energy := cue_energy st; cue_tegument := cue_tegument st;
     cue_integrity := cue_integrity st; mot_energy := mot_energy st;
     mot_tegument := mot_tegument st; mot_integrity := mot_integrity st;
     _secure_led_animation := _secure_led_animation st;
     prev_sensors := prev_sensors st; sensors := sensors st;
     speed := speed st; circ_speed := v; trace := trace st;
     indet := indet st; indet_read := indet_read st |}.

Definition set_trace (v : list event) (st : state) : state :=
  {| left_speed := left_speed st; right_speed := right_speed st;
     var_energy := var_energy st; var_tegument := var_tegument st;
     var_integrity := var_integrity st; def_energy := def_energy st;
     def_tegument := def_tegument st; def_integrity := def_integrity st;
     cue_energy := cue_energy st; cue_tegument := cue_tegument st;
     cue_integrity := cue_integrity st; mot_energy := mot_energy st;
     mot_tegument := mot_tegument st; mot_integrity := mot_integrity st;
     _secure_led_animation := _secure_led_animation st;
     prev_sensors := prev_sensors st; sensors := sensors st;
     speed := speed st; circ_speed := circ_speed st; trace := v;
     indet := indet st; indet_read := indet_read st |}.

Definition set_indet_read (v : nat) (st : state) : state :=
  {| left_speed := left_speed st; right_speed := right_speed st;
     var_energy := var_energy st; var_tegument := var_tegument st;
     var_integrity := var_integrity st; def_energy := def_energy st;
     def_tegument := def_tegument st; def_integrity := def_integrity st;
     cue_energy := cue_energy st; cue_tegument := cue_tegument st;
     cue_integrity := cue_integrity st; mot_energy := mot_energy st;
     mot_tegument := mot_tegument st; mot_integrity := mot_integrity st;
     _secure_led_animation := _secure_led_animation st;
     prev_sensors := prev_sensors st; sensors := sensors st;
     speed := speed st; circ_speed := circ_speed st; trace := trace st;
     indet := indet st; indet_read := v |}.

Definition emit (e : event) (st : state) : state :=
  set_trace (trace st ++ [e]) st.

(** Reading an automatic object that was never assigned. *)
Definition read_indet (st : state) : float * state :=
  (indet st (indet_read st), set_indet_read (S (indet_read st)) st).

(** Arrays are lists indexed from 0; every index below is one the source
    uses, inside the bounds of the array it declares. *)
Definition upd {A : Type} (i : nat) (v : A) (a : list A) : list A :=
  firstn i a ++ match skipn i a with [] => [] | _ :: r => v :: r end.

Definition for_loop {S : Type} (from count : nat) (body : nat -> S -> S)
  (s : S) : S :=
  fold_left (fun acc i => body i acc) (seq from count) s.

(** The state at program start: the initialisers of the file-scope
    objects, zero for those without one. *)
Definition initial_state (garbage : nat -> float) : state :=
  {| left_speed := fzero; right_speed := fzero;
     var_energy := fone; var_tegument := fone; var_integrity := fone;
     def_energy := fone; def_tegument := fone; def_integrity := fone;
     cue_energy := fone; cue_tegument := fone; cue_integrity := fone;
     mot_energy := fone; mot_tegument := fone; mot_integrity := fone;
     _secure_led_animation := 0;
     prev_sensors := repeat 0 8; sensors := repeat 0 8;
     speed := repeat fzero 8; circ_speed := repeat fzero 7;
     trace := []; indet := garbage; indet_read := O |}.

(** ** Arbitration: [winner_takes_all] *)

Definition winner_takes_all (m1 m2 m3 : float) : Z :=
  if gt m1 m2 && gt m1 m3 then 1
  else if gt m2 m1 && gt m2 m3 then 2
  else if gt m3 m1 && gt m3 m2 then 3
  else -1.

(** ** Actuation *)

Definition stop_moving (st : state) : state := emit StopMoving st.

Definition move (motor_left motor_right : float) (st : state) : state :=
  emit (Move motor_left motor_right) st.

Definition death_animation (st : state) : state := emit DeathAnimation st.

(** ** Sensor window: [get_sensors], [get_sensors_history] *)

(** The body of the loop of [get_sensors] for one decoded magnitude
    [sensval]. *)
Definition scale_sensor (sensval : Z) : Z :=
  if sensval >? MAX_DIST then MAX_DIST
  else if sensval <? MIN_DIST then 0
  else Z.shiftr (sensval - MIN_DIST) 1.

(** [raw] holds the eight magnitudes that [kh4_proximity_ir] delivers. *)
Definition get_sensors (raw : list Z) (st : state) : state :=
  for_loop 0 8
    (fun i s => set_sensors (upd i (scale_sensor (nth i raw 0)) (sensors s)) s)
    st.

Definition get_sensors_history (st : state) : state :=
  for_loop 0 8
    (fun i s => set_prev_sensors (upd i (nth i (sensors s) 0) (prev_sensors s)) s)
    st.

(** ** Deficits, cues and motivations *)

Definition compute_deficit (st : state) : state :=
  let one := double_lit 1 1 in
  let st := set_def_energy
              (float_of_double (dsub one (double_of_float (var_energy st)))) st in
  let st := set_def_tegument
              (float_of_double (dsub one (double_of_float (var_tegument st)))) st in
  set_def_integrity
    (float_of_double (dsub one (double_of_float (var_integrity st)))) st.

Definition compute_motivations (st : state) : state :=
  let st := set_mot_energy
              (fadd (def_energy st) (fmul (def_energy st) (cue_energy st))) st in
  let st := set_mot_tegument
              (fadd (def_tegument st) (fmul (def_tegument st) (cue_tegument st))) st in
  set_mot_integrity
    (fadd (def_integrity st) (fmul (def_integrity st) (cue_integrity st))) st.

(** [mean0] is what the unassigned [float mean;] holds when the loop
    starts adding to it. *)
Definition get_mean_normalized (table : list Z) (size min max : Z)
  (mean0 : float) : float :=
  let mean := for_loop 0 (Z.to_nat size)
                (fun i mean => fadd mean (float_of_int (nth i table 0))) mean0 in
  let mean := fdiv mean (float_of_int size) in
  fdiv (fsub mean (float_of_int min)) (float_of_int (CInt.sub max min)).

Definition get_mean_normalized_f (table : list float) (size : Z)
  (min max : float) (mean0 : float) : float :=
  let mean := for_loop 0 (Z.to_nat size)
                (fun i mean => fadd mean (nth i table fzero)) mean0 in
  let mean := fdiv mean (float_of_int size) in
  fdiv (fsub mean min) (fsub max min).

Definition compute_cues (st : state) : state :=
  let st := set_cue_energy (float_of_double (double_lit 6 100)) st in
  let st := set_cue_tegument (float_of_double (double_lit 55 1000)) st in
  let (mean0, st) := read_indet st in
  set_cue_integrity (get_mean_normalized (sensors st) 8 MIN_DIST MAX_DIST mean0) st.

Definition decrease_physoligical_variables (st : state) : state :=
  let st := set_var_energy
              (float_of_double
                 (dsub (double_of_float (var_energy st)) (double_lit 4 1000))) st in
  set_var_tegument
    (float_of_double
       (dsub (double_of_float (var_tegument st)) (double_lit 15 10000))) st.

(** The three calls that close [update_vars], the whole of
    [update_vars(0)]. *)
Definition recompute (st : state) : state :=
  compute_motivations (compute_cues (compute_deficit st)).

(** ** Damage *)

Definition induce_damage (level : float) (st : state) : state :=
  let st := set_var_integrity
              (float_of_double
                 (dsub (double_of_float (var_integrity st))
                       (dmul (double_of_float level) (double_lit 1 100)))) st in
  let st := recompute st in
  if _secure_led_animation st =? 0 then emit DamageAnimation st else st.

(** The first loop of [circ_damage]: channel [i] against the previous
    reading of channel [i-1]. *)
Definition circ_measure (st : state) : state :=
  let ray := float_of_int 6 in
  for_loop 1 6
    (fun i s =>
       let diff_i := CInt.sub (nth i (sensors s) 0) (nth (i - 1) (prev_sensors s) 0) in
       if lt (double_of_int (CInt.abs diff_i))
             (dmul (double_lit 1 2) (double_of_int (nth i (sensors s) 0)))
       then set_circ_speed
              (upd i (float_of_double
                        (ddiv (dmul M_PI (double_of_float ray)) (double_of_int TIME)))
                   (circ_speed s)) s
       else s)
    st.

(** The second loop of [circ_damage]: neighbouring circular speeds that
    are close are both doubled. The argument of [abs] is a [float]
    expression, converted to [int] as [abs] takes an [int]. *)
Definition circ_spread (st : state) : state :=
  for_loop 1 6
    (fun i s =>
       let ci := nth i (circ_speed s) fzero in
       let cp := nth (i - 1) (circ_speed s) fzero in
       if lt (double_of_int (CInt.abs (CInt.of_float (fsub ci cp))))
             (dmul (double_lit 1 2) (double_of_float ci))
       then
         let s := set_circ_speed
                    (upd (i - 1) (fmul cp (float_of_int 2)) (circ_speed s)) s in
         set_circ_speed
           (upd i (fmul (nth i (circ_speed s) fzero) (float_of_int 2))
              (circ_speed s)) s
       else s)
    st.

Definition circ_damage (st : state) : Z * state :=
  let st := circ_measure st in
  let st := circ_spread st in
  let st :=
    for_loop 0 7 (fun i s => induce_damage (nth i (circ_speed s) fzero) s) st in
  (0, st).

Definition speed_damage (st : state) : Z * state :=
  let st :=
    for_loop 0 8
      (fun i s =>
         let diff_i := CInt.sub (nth i (sensors s) 0) (nth i (prev_sensors s) 0) in
         if gt (double_of_int (CInt.abs diff_i))
               (dmul (double_lit 5 100) (double_of_int (CInt.sub MAX_DIST MIN_DIST)))
         then set_speed
                (upd i (float_of_double
                          (ddiv (double_of_float
                                   (fadd (nth i (speed s) fzero)
                                         (float_of_int (CInt.div diff_i TIME))))
                                (double_lit 2 1)))
                     (speed s)) s
         else set_speed (upd i (float_of_double (S754_zero false)) (speed s)) s)
      st in
  let (mean0, st) := read_indet st in
  let mean := get_mean_normalized_f (speed st) 8
                (float_of_double (S754_zero false))
                (float_of_int (CInt.div MAX_DIST TIME)) mean0 in
  if gt (double_of_float mean)
        (dmul (double_lit 5 100) (ddiv (double_lit 1 1) (double_lit 8 1)))
  then
    let st :=
      for_loop 0 8
        (fun i s =>
           if gt (double_of_float (nth i (speed s) fzero)) (double_lit 5 100)
           then induce_damage (nth i (speed s) fzero) s
           else s)
        st in
    (1, st)
  else (0, st).

(** [circ_damage() || speed_damage()]: the right operand is evaluated only
    when the left one is zero. *)
Definition check_if_damage (st : state) : Z * state :=
  let (c, st) := circ_damage st in
  if negb (c =? 0) then (1, st)
  else
    let (s, st) := speed_damage st in
    if negb (s =? 0) then (1, st) else (0, st).

(** ** Physiological state update *)

Definition update_vars (loopstart : Z) (raw : list Z) (st : state) : state :=
  let st :=
    if negb (loopstart =? 0) then
      let st := decrease_physoligical_variables st in
      let st := get_sensors raw st in
      snd (check_if_damage st)
    else st in
  recompute st.

(** ** Behaviour dispatch *)

Definition eat (st : state) : state :=
  set_var_energy
    (float_of_double (dadd (double_of_float (var_energy st)) (double_lit 5 100))) st.

Definition seek_food (st : state) : state :=
  move (float_of_double (double_lit 8 10)) (float_of_double (double_lit 8 10)) st.

Definition energy_behavioral_group (st : state) : state :=
  let can_eat := 0 in
  let st := if negb (can_eat =? 0) then eat st else st in
  seek_food st.

Definition groom_animation (st : state) : state :=
  let one := float_of_double (double_lit 1 1) in
  let st := move (SFopp one) one st in
  let st := emit (Usleep (2 * TIME)) st in
  let st := move one (SFopp one) st in
  emit (Usleep (2 * TIME)) st.

Definition seek_grooming_spot (st : state) : state :=
  move (float_of_double (double_lit 8 10)) (float_of_double (double_lit 8 10)) st.

Definition groom (st : state) : state :=
  groom_animation
    (set_var_energy
       (float_of_double (dadd (double_of_float (var_energy st)) (double_lit 5 100)))
       st).

Definition tegument_behavioral_group (st : state) : state :=
  let can_groom := 0 in
  let st := if negb (can_groom =? 0) then groom st else st in
  seek_grooming_spot st.

Definition avoid (st : state) : state :=
  let min := 0 in
  let max := 1023 in
  let normalized_sensors :=
    map (fun i => float_of_int
                    (CInt.div (CInt.sub (nth i (sensors st) 0) min) (CInt.sub max min)))
        (seq 0 8) in
  let weight_l := repeat (float_of_double (S754_zero false)) 8 in
  let weight_r := repeat (float_of_double (S754_zero false)) 8 in
  let st :=
    for_loop 0 8
      (fun i s =>
         let s := set_left_speed
                    (fadd (left_speed s)
                          (fmul (nth i weight_l fzero) (nth i normalized_sensors fzero))) s in
         set_right_speed
           (fadd (right_speed s)
                 (fmul (nth i weight_r fzero) (nth i normalized_sensors fzero))) s)
      st in
  let st := set_left_speed (fdiv (left_speed st) (float_of_int 8)) st in
  let st := set_right_speed (fdiv (right_speed st) (float_of_int 8)) st in
  move (left_speed st) (right_speed st) st.

Definition integrity_behavioral_group (st : state) : state := avoid st.

Definition compute_speed (bhv : Z) (st : state) : state :=
  match bhv with
  | 1 => energy_behavioral_group st
  | 2 => tegument_behavioral_group st
  | 3 => integrity_behavioral_group st
  | _ => set_right_speed (float_of_double (S754_zero false))
           (set_left_speed (float_of_double (S754_zero false)) st)
  end.

(** ** Control loop: [model] *)

(** The condition of the [while] of [model]. *)
Definition loop_cond (st : state) : bool :=
  gt (var_energy st) (float_of_int 0)
  && gt (var_tegument st) (float_of_int 0)
  && gt (var_integrity st) (float_of_int 0).

(** One pass through the body of the loop, reading the frame [raw]. *)
Definition tick (raw : list Z) (st : state) : state :=
  let st := update_vars 1 raw st in
  let behaviral :=
    winner_takes_all (mot_energy st) (mot_tegument st) (mot_integrity st) in
  let st := compute_speed behaviral st in
  let st := move (left_speed st) (right_speed st) st in
  let st := get_sensors_history st in
  emit (Usleep TIME) st.

(** What follows the loop. *)
Definition shutdown (st : state) : state := death_animation (stop_moving st).

Inductive phase : Type := Running | Terminated.

(** The loop as a transition system; a configuration in [Terminated] has
    executed [return 0]. *)
Inductive step : phase * state -> phase * state -> Prop :=
| step_tick : forall raw st,
    loop_cond st = true -> step (Running, st) (Running, tick raw st)
| step_halt : forall st,
    loop_cond st = false -> step (Running, st) (Terminated, shutdown st).

(** Any number of transitions in a row. *)
Inductive steps : phase * state -> phase * state -> Prop :=
| steps_refl : forall c, steps c c
| steps_cons : forall a b c, step a b -> steps b c -> steps a c.

(** The loop run on the frames the sensors deliver, one per pass, for as
    long as there are frames. *)
Fixpoint model_loop (frames : list (list Z)) (st : state) : phase * state :=
  if loop_cond st then
    match frames with
    | [] => (Running, st)
    | raw :: rest => model_loop rest (tick raw st)
    end
  else (Terminated, shutdown st).

(** [model]: the first frame is read before the loop. *)
Definition model (garbage : nat -> float) (first : list Z)
  (frames : list (list Z)) : phase * state :=
  model_loop frames (get_sensors first (initial_state garbage)).

(** [n] passes through the body, whatever the loop condition. *)
Fixpoint ticks (frames : list (list Z)) (st : state) : state :=
  match frames with
  | [] => st
  | raw :: rest => ticks rest (tick raw st)
  end.

(** * Notions used in the statements *)

(** ** Floating-point numbers *)

(** The sign of [x] is [s], and [x] is no NaN. *)
Definition signed (s : bool) (x : spec_float) : Prop :=
  match x with
  | S754_zero s' | S754_infinity s' | S754_finite s' _ _ => s' = s
  | S754_nan => False
  end.

(** A positive number not above [2 ^ k], or a zero. *)
Definition below (k : Z) (x : spec_float) : Prop :=
  match x with
  | S754_zero _ => True
  | S754_finite false m e => e <= k /\ Zpos m <= 2 ^ (k - e)
  | _ => False
  end.

(** A number that is at most 1: a positive number not above [2 ^ 0], a
    zero, a negative number or minus infinity. *)
Definition at_most_one (x : spec_float) : Prop := below 0 x \/ signed true x.

(** What [j] halvings leave of the integer [m0] in a rounding: the part
    kept is not above [m0], and is strictly below it as soon as a bit was
    dropped. *)
Definition halved (m0 j : Z) (mrs : shr_record) : Prop :=
  0 <= shr_m mrs
  /\ shr_m mrs * 2 ^ j <= m0
  /\ (shr_r mrs || shr_s mrs = true -> shr_m mrs * 2 ^ j < m0).

(** ** Arbitration *)

(** [a] is strictly greater than both [b] and [c]. *)
Definition strict_winner (a b c : float) : Prop :=
  gt a b = true /\ gt a c = true.

(** ** Control loop *)

Definition all_positive (st : state) : Prop :=
  gt (var_energy st) (float_of_int 0) = true
  /\ gt (var_tegument st) (float_of_int 0) = true
  /\ gt (var_integrity st) (float_of_int 0) = true.

Definition some_nonpositive (st : state) : Prop :=
  le (var_energy st) (float_of_int 0) = true
  \/ le (var_tegument st) (float_of_int 0) = true
  \/ le (var_integrity st) (float_of_int 0) = true.

Definition no_nan_variable (st : state) : Prop :=
  is_nan (var_energy st) = false
  /\ is_nan (var_tegument st) = false
  /\ is_nan (var_integrity st) = false.

(** A state that [model] reaches at the head of its loop, for some content
    of the unassigned objects and some readings of the sensors. *)
Definition reachable (st : state) : Prop :=
  exists garbage first,
    steps (Running, get_sensors first (initial_state garbage)) (Running, st).

(** ** Sensor window *)

(** The stored value as the specification words it: the magnitude clamped
    into [MIN_DIST, MAX_DIST], minus [MIN_DIST], halved, for magnitudes
    from [MIN_DIST] on, and 0 below. *)
Definition spec_scaled (raw : Z) : Z :=
  if raw >=? MIN_DIST
  then (Z.min (Z.max raw MIN_DIST) MAX_DIST - MIN_DIST) / 2
  else 0.

(** A value that [get_sensors] can store. *)
Definition in_range (z : Z) : Prop := 0 <= z <= MAX_DIST.

(** ** Physiology *)

(** [Integrity.variable] after damage of magnitude [level]: the binary32
    rounding of the double-precision value of
    [var_integrity - level * 0.01]. *)
Definition eroded (level v : float) : float :=
  float_of_double
    (dsub (double_of_float v) (dmul (double_of_float level) (double_lit 1 100))).

Definition deficit_of (v : float) : float :=
  float_of_double (dsub (double_lit 1 1) (double_of_float v)).

Definition motivation_of (d c : float) : float := fadd d (fmul d c).

(** The deficit, cue and motivation of Energy and of Tegument are the ones
    [update_vars(0)] computes from the current variables. *)
Definition energy_tegument_current (st : state) : Prop :=
  def_energy st = deficit_of (var_energy st)
  /\ cue_energy st = float_of_double (double_lit 6 100)
  /\ mot_energy st = motivation_of (def_energy st) (cue_energy st)
  /\ def_tegument st = deficit_of (var_tegument st)
  /\ cue_tegument st = float_of_double (double_lit 55 1000)
  /\ mot_tegument st = motivation_of (def_tegument st) (cue_tegument st).

(** The values of all the file-scope objects. *)
Definition globals (st : state) :=
  (left_speed st, right_speed st,
   (var_energy st, var_tegument st, var_integrity st),
   (def_energy st, def_tegument st, def_integrity st),
   (cue_energy st, cue_tegument st, cue_integrity st),
   (mot_energy st, mot_tegument st, mot_integrity st),
   _secure_led_animation st, prev_sensors st, sensors st, speed st,
   circ_speed st).

(** The fields on which the need variables of later passes depend. *)
Definition body (st : state) :=
  (var_energy st, var_tegument st, var_integrity st,
   prev_sensors st, sensors st, speed st, circ_speed st).

(** The fields that decide whether the loop goes on, and the circular
    speeds that feed the erosion. *)
Definition needs (st : state) :=
  (var_energy st, var_tegument st, var_integrity st, circ_speed st).

(** The need variables are numbers: Energy and Tegument are no NaN,
    Integrity is at most 1, and no circular speed is negative or a NaN. *)
Definition numeric (st : state) : Prop :=
  is_nan (var_energy st) = false
  /\ is_nan (var_tegument st) = false
  /\ at_most_one (var_integrity st)
  /\ Forall (signed false) (circ_speed st).

(** The fields that [circ_damage] leaves alone. *)
Definition window (st : state) := (prev_sensors st, sensors st, speed st).

Definition respects (f : state -> state) : Prop :=
  forall a b, body a = body b -> body (f a) = body (f b).

(** What holds of the sensor window whenever [speed_damage] runs: the
    speeds are all zero, as at program start, and both frames hold values
    that [get_sensors] can store. *)
Definition quiet (st : state) : Prop :=
  speed st = repeat fzero 8
  /\ Forall in_range (sensors st)
  /\ Forall in_range (prev_sensors st).

(** Structural equality of floating-point numbers. *)
Definition same_float (x y : spec_float) : bool :=
  match x, y with
  | S754_zero a, S754_zero b => Bool.eqb a b
  | S754_infinity a, S754_infinity b => Bool.eqb a b
  | S754_nan, S754_nan => true
  | S754_finite a m e, S754_finite b n f =>
      Bool.eqb a b && Pos.eqb m n && Z.eqb e f
  | _, _ => false
  end.

(** ** Runs and states used as examples *)

(** Unassigned objects hold zero; every sensor reads 290. *)
Definition calm_garbage : nat -> float := fun _ => fzero.
Definition calm_frame : list Z := repeat 290 8.

(** The state in which [model] enters its loop on [calm_frame]. *)
Definition calm_start : state := get_sensors calm_frame (initial_state calm_garbage).

(** The same program state, in a run where unassigned objects hold 1. *)
Definition calm_start_one : state :=
  get_sensors calm_frame (initial_state (fun _ => fone)).

(** The state in which [circ_damage] first calls [induce_damage]: the first
    pass of the loop has lowered Energy and Tegument and read the sensors,
    the deficits are still the initial ones. *)
Definition first_damage_state : state :=
  get_sensors calm_frame (decrease_physoligical_variables calm_start).

(** The frame stored when nothing is in reach of any sensor. *)
Definition dark_state : state := get_sensors (repeat 0 8) (initial_state calm_garbage).

(** A spike on channel 3: every sensor reads 290 for one pass, then
    channel 3 reads 500. *)
Definition spike_frame : list Z := [290; 290; 290; 500; 290; 290; 290; 290].

Definition at_spike (garbage : nat -> float) : state :=
  get_sensors spike_frame
    (get_sensors_history (get_sensors calm_frame (initial_state garbage))).

(** The loop entered on the constant reading [r] and run for [n] passes on
    that same reading. *)
Definition constant_run (garbage : nat -> float) (r : Z) (n : nat) : state :=
  ticks (repeat (repeat r 8) n) (get_sensors (repeat r 8) (initial_state garbage)).

(** A pass of the loop reduced to what acts on the need variables: the
    decay, the sensor refresh, the two loops of [circ_damage] on the
    circular speeds, the seven erosions of [Integrity.variable], and the
    archiving of the frame. *)
Definition erode_all (st : state) : state :=
  for_loop 0 7
    (fun i s =>
       set_var_integrity
         (eroded (nth i (circ_speed s) fzero) (var_integrity s)) s)
    st.

Definition lean_tick (raw : list Z) (st : state) : state :=
  get_sensors_history
    (erode_all
       (circ_spread
          (circ_measure (get_sensors raw (decrease_physoligical_variables st))))).

Fixpoint lean_ticks (frames : list (list Z)) (st : state) : state :=
  match frames with
  | [] => st
  | raw :: rest => lean_ticks rest (lean_tick raw st)
  end.

Definition lean_run (r : Z) (n : nat) : state :=
  lean_ticks (repeat (repeat r 8) n)
    (get_sensors (repeat r 8) (initial_state calm_garbage)).

(** Scenario A: ten passes, every sensor reading 290 throughout, unassigned
    objects holding 0. *)
Definition scenario_A : state := constant_run calm_garbage 290 10.

(** The loop entered on [calm_frame], two passes on that frame and eight on
    a frame with nothing in reach of any sensor; one more such pass then
    leaves [worn_state], in which the doubled circular speeds have taken
    Integrity below zero. *)
Definition wearing_frames : list (list Z) :=
  calm_frame :: calm_frame :: repeat (repeat 0 8) 8.

Definition worn_state : state :=
  tick (repeat 0 8) (ticks wearing_frames calm_start).

(** The three variables after the ten passes of scenario A. *)
Definition energy_after_10 : float := S754_finite false 16106126 (-24).
Definition tegument_after_10 : float := S754_finite false 16525556 (-24).
Definition integrity_after_10 : float := S754_finite false 16770979 (-24).

Definition scenario_A_values (st : state) : bool :=
  same_float (var_energy st) energy_after_10
  && same_float (var_tegument st) tegument_after_10
  && same_float (var_integrity st) integrity_after_10.

(** The decay of one pass on Energy and on Tegument. *)
Definition energy_decay (v : float) : float :=
  float_of_double (dsub (double_of_float v) (double_lit 4 1000)).

Definition tegument_decay (v : float) : float :=
  float_of_double (dsub (double_of_float v) (double_lit 15 10000)).

(** The circular speed that [circ_damage] assigns, [(M_PI*ray)/TIME], and
    the erosion of one pass once the seven circular speeds have settled at
    0, four times that speed (five channels) and twice that speed. *)
Definition circ_unit : float :=
  float_of_double
    (ddiv (dmul M_PI (double_of_float (float_of_int 6))) (double_of_int TIME)).

Definition settled_circ_speed : list float :=
  let c2 := fmul circ_unit (float_of_int 2) in
  let c4 := fmul c2 (float_of_int 2) in
  [fzero; c4; c4; c4; c4; c4; c2].

Definition settled_erosion (v : float) : float :=
  fold_left (fun v level => eroded level v) settled_circ_speed v.

(** * Properties *)

(** ** Tactics *)

(** Splits conjunctions only, leaving equations to be computed. *)
Ltac split_conj := repeat match goal with |- _ /\ _ => split end.

(** Unfolds the field updates and the projections, nothing of the
    arithmetic. *)
Ltac state_fields :=
  cbv beta iota zeta delta
    [emit read_indet
     set_left_speed set_right_speed set_var_energy set_var_tegument
     set_var_integrity set_def_energy set_def_tegument set_def_integrity
     set_cue_energy set_cue_tegument set_cue_integrity set_mot_energy
     set_mot_tegument set_mot_integrity set_prev_sensors set_sensors
     set_speed set_circ_speed set_trace set_indet_read
     left_speed right_speed var_energy var_tegument var_integrity
     def_energy def_tegument def_integrity cue_energy cue_tegument
     cue_integrity mot_energy mot_tegument mot_integrity
     _secure_led_animation prev_sensors sensors speed circ_speed trace
     indet indet_read].

Ltac destruct_state st :=
  let ls := fresh "ls" in
  let rs := fresh "rs" in
  let ve := fresh "ve" in
  let vt := fresh "vt" in
  let vi := fresh "vi" in
  let de := fresh "de" in
  let dt := fresh "dt" in
  let di := fresh "di" in
  let ce := fresh "ce" in
  let ct := fresh "ct" in
  let ci := fresh "ci" in
  let me := fresh "me" in
  let mt := fresh "mt" in
  let mi := fresh "mi" in
  let flag := fresh "flag" in
  let ps := fresh "ps" in
  let sn := fresh "sn" in
  let sp := fresh "sp" in
  let cs := fresh "cs" in
  let tr := fresh "tr" in
  let ind := fresh "ind" in
  let ir := fresh "ir" in
  destruct st as [ls rs ve vt vi de dt di ce ct ci me mt mi flag ps sn sp cs tr ind ir].

Ltac state_fields_in H :=
  cbv beta iota zeta delta
    [emit read_indet
     set_left_speed set_right_speed set_var_energy set_var_tegument
     set_var_integrity set_def_energy set_def_tegument set_def_integrity
     set_cue_energy set_cue_tegument set_cue_integrity set_mot_energy
     set_mot_tegument set_mot_integrity set_prev_sensors set_sensors
     set_speed set_circ_speed set_trace set_indet_read
     left_speed right_speed var_energy var_tegument var_integrity
     def_energy def_tegument def_integrity cue_energy cue_tegument
     cue_integrity mot_energy mot_tegument mot_integrity
     _secure_led_animation prev_sensors sensors speed circ_speed trace
     indet indet_read] in H.

(** Two states with the same [body]: name their fields, identify the
    shared ones, and compare what is left branch by branch. *)
Ltac same_body :=
  let a := fresh "a" in
  let b := fresh "b" in
  let H := fresh "H" in
  intros a b H; destruct_state a; destruct_state b;
  unfold body in *; state_fields_in H; inversion H; subst; clear H;
  state_fields;
  repeat match goal with
    | |- context [if ?c then _ else _] => destruct c
    end;
  reflexivity.

(** ** Comparison of floating-point numbers *)

Lemma SFltb_asym (x y : spec_float) : SFltb x y = true -> SFltb y x = false.
Proof.
  unfold SFltb, SFcompare.
  destruct x as [sx|sx| |sx mx ex], y as [sy|sy| |sy my ey];
    try destruct sx; try destruct sy; try discriminate; try reflexivity.
  - rewrite (Z.compare_antisym ex ey).
    destruct (ex ?= ey); simpl; try discriminate; try reflexivity.
    pose proof (Pos.compare_cont_antisym mx my Eq) as A; simpl in A.
    rewrite <- A.
    destruct (Pos.compare_cont Eq mx my); simpl; try discriminate; reflexivity.
  - rewrite (Z.compare_antisym ex ey).
    destruct (ex ?= ey); simpl; try discriminate; try reflexivity.
    pose proof (Pos.compare_cont_antisym mx my Eq) as A; simpl in A.
    rewrite <- A.
    destruct (Pos.compare_cont Eq mx my); simpl; try discriminate; reflexivity.
Qed.

Lemma gt_asym (x y : spec_float) : gt x y = true -> gt y x = false.
Proof. unfold gt. apply SFltb_asym. Qed.

(** Against zero, "not greater" and "less or equal" differ only on NaN. *)
Lemma not_gt_zero_iff_le (x : spec_float) :
  is_nan x = false ->
  (gt x (float_of_int 0) = false <-> le x (float_of_int 0) = true).
Proof.
  intros Hx. change (float_of_int 0) with (S754_zero false).
  unfold gt, le, SFltb, SFleb, SFcompare.
  destruct x as [s|s| |s m e]; try destruct s; simpl in *;
    try discriminate; split; intros H; try reflexivity; try discriminate.
Qed.

(** ** Literals *)

(** The constants of the source as binary64 numbers: [M_PI] is
    0x400921FB54442D18, the speed threshold [0.05*(MAX_DIST-MIN_DIST)] is
    exactly 21, the mean threshold [0.05*(1.0/8.0)] is the double nearest
    to 0.00625, and [MAX_DIST/TIME] is the integer 0. *)
Lemma literal_values :
  M_PI = S754_finite false 7074237752028440 (-51)
  /\ dmul (double_lit 5 100) (double_of_int (CInt.sub MAX_DIST MIN_DIST))
     = double_of_int 21
  /\ dmul (double_lit 5 100) (ddiv (double_lit 1 1) (double_lit 8 1))
     = double_lit 625 100000
  /\ float_of_int (CInt.div MAX_DIST TIME) = fzero.
Proof. split_conj; vm_compute; reflexivity. Qed.

(** ** Arbitration *)

Lemma strict_winner_dec (a b c : float) :
  gt a b && gt a c = true <-> strict_winner a b c.
Proof. unfold strict_winner. apply andb_true_iff. Qed.

Lemma strict_winner_excl (a b c : float) :
  strict_winner a b c -> gt b a && gt b c = false.
Proof.
  intros [Hab _]. apply gt_asym in Hab. rewrite Hab. reflexivity.
Qed.

Lemma strict_winner_excl' (a b c : float) :
  strict_winner a b c -> gt c a && gt c b = false.
Proof.
  intros [_ Hac]. apply gt_asym in Hac. rewrite Hac. reflexivity.
Qed.

Lemma strict_winner_excl'' (a b c : float) :
  strict_winner a b c -> gt c b && gt c a = false.
Proof.
  intros [_ Hac]. apply gt_asym in Hac. rewrite Hac. apply andb_false_r.
Qed.

(** C1. For every triple of motivations, [winner_takes_all] returns the
    need (1 Energy, 2 Tegument, 3 Integrity) whose motivation is strictly
    greater than both others, and -1 (None) exactly when no need is a
    strict winner; in particular (1,1,1) gives None and (2,1,1) gives
    Energy. *)
Theorem winner_takes_all_strict_winner :
  (forall m1 m2 m3 : float,
      (strict_winner m1 m2 m3 <-> winner_takes_all m1 m2 m3 = 1)
      /\ (strict_winner m2 m1 m3 <-> winner_takes_all m1 m2 m3 = 2)
      /\ (strict_winner m3 m1 m2 <-> winner_takes_all m1 m2 m3 = 3)
      /\ (~ strict_winner m1 m2 m3 /\ ~ strict_winner m2 m1 m3
          /\ ~ strict_winner m3 m1 m2 <-> winner_takes_all m1 m2 m3 = -1))
  /\ winner_takes_all (float_of_int 1) (float_of_int 1) (float_of_int 1) = -1
  /\ winner_takes_all (float_of_int 2) (float_of_int 1) (float_of_int 1) = 1.
Proof.
  split; [| split; reflexivity].
  intros m1 m2 m3.
  pose proof (strict_winner_dec m1 m2 m3) as D1.
  pose proof (strict_winner_dec m2 m1 m3) as D2.
  pose proof (strict_winner_dec m3 m1 m2) as D3.
  pose proof (strict_winner_excl m1 m2 m3) as E12.
  pose proof (strict_winner_excl' m1 m2 m3) as E13.
  pose proof (strict_winner_excl m2 m1 m3) as E21.
  pose proof (strict_winner_excl'' m2 m1 m3) as E23.
  unfold winner_takes_all.
  rewrite <- D1, <- D2, <- D3.
  rewrite <- D1 in E12, E13. rewrite <- D2 in E21, E23.
  destruct (gt m1 m2 && gt m1 m3), (gt m2 m1 && gt m2 m3),
    (gt m3 m1 && gt m3 m2);
    repeat split; intros;
    repeat match goal with
      | H : _ /\ _ |- _ => destruct H
      | H : true = true -> _ |- _ => specialize (H eq_refl)
      end;
    try reflexivity; try discriminate; try congruence.
Qed.

(** ** Control loop *)

Lemma loop_cond_true_iff (st : state) : loop_cond st = true <-> all_positive st.
Proof.
  unfold loop_cond, all_positive.
  rewrite !andb_true_iff. tauto.
Qed.

Lemma loop_cond_false_iff (st : state) :
  no_nan_variable st -> (loop_cond st = false <-> some_nonpositive st).
Proof.
  intros (Ne & Nt & Ni).
  unfold loop_cond, some_nonpositive.
  rewrite <- (not_gt_zero_iff_le _ Ne), <- (not_gt_zero_iff_le _ Nt),
    <- (not_gt_zero_iff_le _ Ni).
  rewrite !andb_false_iff. tauto.
Qed.

Lemma step_running_inv (st : state) (c : phase * state) :
  step (Running, st) c ->
  (loop_cond st = true /\ exists raw, c = (Running, tick raw st))
  \/ (loop_cond st = false /\ c = (Terminated, shutdown st)).
Proof.
  intros H. inversion H; subst.
  - left. split; [assumption | eexists; reflexivity].
  - right. split; [assumption | reflexivity].
Qed.

Lemma trace_shutdown (st : state) :
  trace (shutdown st) = trace st ++ [StopMoving; DeathAnimation].
Proof.
  unfold shutdown, death_animation, stop_moving, emit.
  simpl. rewrite <- app_assoc. reflexivity.
Qed.

(** [model_loop] makes a pass when the condition holds and halts when it
    does not. *)
Lemma model_loop_pass (raw : list Z) (rest : list (list Z)) (st : state) :
  loop_cond st = true ->
  model_loop (raw :: rest) st = model_loop rest (tick raw st).
Proof. intros H. cbn [model_loop]. rewrite H. reflexivity. Qed.

Lemma model_loop_out_of_frames (st : state) :
  loop_cond st = true -> model_loop [] st = (Running, st).
Proof. intros H. cbn [model_loop]. rewrite H. reflexivity. Qed.

Lemma model_loop_halt (frames : list (list Z)) (st : state) :
  loop_cond st = false -> model_loop frames st = (Terminated, shutdown st).
Proof. intros H. destruct frames; cbn [model_loop]; rewrite H; reflexivity. Qed.

(** What [model_loop] returns is reached from the running configuration by
    transitions of the loop, one per pass made and one for the halt. *)
Lemma model_loop_steps (frames : list (list Z)) :
  forall st, steps (Running, st) (model_loop frames st).
Proof.
  induction frames as [| raw rest IH]; intros st;
    destruct (loop_cond st) eqn:E.
  - rewrite (model_loop_out_of_frames st E). apply steps_refl.
  - rewrite (model_loop_halt [] st E).
    eapply steps_cons; [apply step_halt, E | apply steps_refl].
  - rewrite (model_loop_pass raw rest st E).
    eapply steps_cons; [apply (step_tick raw), E | apply IH].
  - rewrite (model_loop_halt (raw :: rest) st E).
    eapply steps_cons; [apply step_halt, E | apply steps_refl].
Qed.

Lemma model_loop_terminated_trace (frames : list (list Z)) :
  forall st,
    fst (model_loop frames st) = Terminated ->
    exists calls,
      trace (snd (model_loop frames st)) = calls ++ [StopMoving; DeathAnimation].
Proof.
  induction frames as [| raw rest IH]; intros st;
    destruct (loop_cond st) eqn:E.
  - rewrite (model_loop_out_of_frames st E). discriminate.
  - rewrite (model_loop_halt [] st E). intros _.
    exists (trace st). apply trace_shutdown.
  - rewrite (model_loop_pass raw rest st E). apply IH.
  - rewrite (model_loop_halt (raw :: rest) st E). intros _.
    exists (trace st). apply trace_shutdown.
Qed.

(** ** Sensor window *)

Lemma sensors_get_sensors (raw : list Z) (st : state) :
  length (sensors st) = 8%nat ->
  sensors (get_sensors raw st) = map (fun i => scale_sensor (nth i raw 0)) (seq 0 8).
Proof.
  intros L. destruct st as [? ? ? ? ? ? ? ? ? ? ? ? ? ? ? ? sens ? ? ? ? ?].
  simpl in L.
  do 8 (destruct sens as [| ? sens]; [discriminate L |]).
  destruct sens; [| discriminate L]. reflexivity.
Qed.

(** Up to [MAX_DIST] the code stores what the specification says. *)
Lemma scale_sensor_in_range (raw : Z) :
  raw <= MAX_DIST -> scale_sensor raw = spec_scaled raw.
Proof.
  unfold scale_sensor, spec_scaled, MAX_DIST, MIN_DIST. intros H.
  destruct (raw >? 500) eqn:E1; [lia |].
  destruct (raw <? 80) eqn:E2; destruct (raw >=? 80) eqn:E3; try lia.
  rewrite Z.shiftr_div_pow2 by lia.
  replace (Z.min (Z.max raw 80) 500) with raw by lia. reflexivity.
Qed.

Lemma scale_sensor_bounds (raw : Z) : 0 <= scale_sensor raw <= MAX_DIST.
Proof.
  unfold scale_sensor, MAX_DIST, MIN_DIST.
  destruct (raw >? 500) eqn:E1; [lia |].
  destruct (raw <? 80) eqn:E2; [lia |].
  rewrite Z.shiftr_div_pow2 by lia. change (2 ^ 1) with 2.
  assert (0 <= (raw - 80) / 2) by (apply Z.div_pos; lia).
  assert ((raw - 80) / 2 <= raw - 80) by (apply Z.div_le_upper_bound; lia).
  lia.
Qed.

(** C4. The three boundary values agree with the specification (0 and
    [MIN_DIST] are stored as 0, [MAX_DIST] as (MAX_DIST - MIN_DIST)/2 =
    210), but a magnitude above [MAX_DIST] is stored as [MAX_DIST] = 500
    itself, not as the value stored for [MAX_DIST]: [get_sensors] on a frame
    of 501s stores 500 in every channel, on a frame of 500s it stores 210. *)
Theorem get_sensors_above_MAX_DIST :
  scale_sensor 0 = 0
  /\ scale_sensor MIN_DIST = 0
  /\ scale_sensor MAX_DIST = (MAX_DIST - MIN_DIST) / 2
  /\ scale_sensor 501 = 500
  /\ scale_sensor 501 <> scale_sensor MAX_DIST
  /\ scale_sensor 501 <> spec_scaled 501
  /\ sensors (get_sensors (repeat 501 8) (initial_state calm_garbage)) = repeat 500 8
  /\ sensors (get_sensors (repeat MAX_DIST 8) (initial_state calm_garbage))
     = repeat 210 8.
Proof.
  split_conj; try (vm_compute; reflexivity); intros H; vm_compute in H;
    discriminate H.
Qed.

(** ** Damage check *)

Lemma fst_circ_damage (st : state) : fst (circ_damage st) = 0.
Proof. cbv beta iota zeta delta [circ_damage fst]. reflexivity. Qed.

Lemma speed_damage_flag (st : state) :
  fst (speed_damage st) = 0 \/ fst (speed_damage st) = 1.
Proof.
  cbv beta iota zeta delta [speed_damage read_indet].
  match goal with
  | |- context [if gt ?a ?b then _ else _] => destruct (gt a b)
  end; cbv beta iota delta [fst]; auto.
Qed.

Lemma check_if_damage_eq (st : state) :
  check_if_damage st = speed_damage (snd (circ_damage st)).
Proof.
  unfold check_if_damage.
  pose proof (fst_circ_damage st) as C.
  destruct (circ_damage st) as [c st1].
  cbv beta iota delta [fst] in C. subst c.
  cbv beta iota delta [snd]. change (negb (0 =? 0)) with false. cbv iota.
  pose proof (speed_damage_flag st1) as F.
  destruct (speed_damage st1) as [s st2].
  cbv beta iota delta [fst] in F.
  destruct F; subst s; reflexivity.
Qed.

(** C8. [check_if_damage] returns 1 exactly when one of the two heuristics
    returns non-zero, and 0 otherwise; whatever the result, the state it
    leaves is the one reached by running [circ_damage] and then
    [speed_damage] on the state [circ_damage] left, so both have had their
    effects. *)
Theorem check_if_damage_or_of_both (st : state) :
  let c := fst (circ_damage st) in
  let s := fst (speed_damage (snd (circ_damage st))) in
  (fst (check_if_damage st) = 1 <-> (c <> 0 \/ s <> 0))
  /\ (fst (check_if_damage st) = 0 <-> (c = 0 /\ s = 0))
  /\ snd (check_if_damage st) = snd (speed_damage (snd (circ_damage st))).
Proof.
  cbv zeta. rewrite check_if_damage_eq, fst_circ_damage.
  destruct (speed_damage_flag (snd (circ_damage st))) as [H | H]; rewrite H;
    repeat split; intros; try lia; try tauto.
Qed.

(** C10. [circ_damage] returns 0 in every state, so [check_if_damage]
    returns what [speed_damage] returns: the adjacency heuristic acts on
    the result only through the state it hands to [speed_damage]. *)
Theorem circ_damage_never_flags (st : state) :
  fst (circ_damage st) = 0
  /\ fst (check_if_damage st) = fst (speed_damage (snd (circ_damage st))).
Proof.
  split; [apply fst_circ_damage |]. rewrite check_if_damage_eq. reflexivity.
Qed.

(** ** Induced damage *)

Lemma update_vars_0 (raw : list Z) (st : state) : update_vars 0 raw st = recompute st.
Proof. reflexivity. Qed.

(** C7, as stated, fails: in the first pass of the loop the call
    [induce_damage(0)] changes Energy's deficit, cue and motivation (and
    Tegument's), which were stale. *)
Lemma induce_damage_rewrites_energy :
  let st := first_damage_state in
  let st' := induce_damage fzero st in
  def_energy st' <> def_energy st
  /\ cue_energy st' <> cue_energy st
  /\ mot_energy st' <> mot_energy st
  /\ def_tegument st' <> def_tegument st.
Proof.
  cbv zeta. split_conj; intros H; vm_compute in H; discriminate H.
Qed.

(** C7, amended. [induce_damage(m)] lowers [Integrity.variable] by
    [m * 0.01] (computed in double precision, rounded to float), leaves the
    Energy and Tegument variables, the sensor frames and the speed tables
    alone, and recomputes deficit, cue and motivation of all three needs as
    [update_vars(0)] does; Energy's and Tegument's fields keep their values
    when they were already the current ones. *)
Theorem induce_damage_effect (m : float) (st : state) :
  let st' := induce_damage m st in
  var_integrity st' = eroded m (var_integrity st)
  /\ var_energy st' = var_energy st
  /\ var_tegument st' = var_tegument st
  /\ (sensors st' = sensors st /\ prev_sensors st' = prev_sensors st
      /\ speed st' = speed st /\ circ_speed st' = circ_speed st)
  /\ (def_integrity st' = deficit_of (var_integrity st')
      /\ cue_integrity st'
         = get_mean_normalized (sensors st) 8 MIN_DIST MAX_DIST
             (indet st (indet_read st))
      /\ mot_integrity st' = motivation_of (def_integrity st') (cue_integrity st'))
  /\ energy_tegument_current st'
  /\ (energy_tegument_current st ->
      def_energy st' = def_energy st /\ cue_energy st' = cue_energy st
      /\ mot_energy st' = mot_energy st
      /\ def_tegument st' = def_tegument st /\ cue_tegument st' = cue_tegument st
      /\ mot_tegument st' = mot_tegument st).
Proof.
  destruct_state st.
  cbv zeta. unfold induce_damage, energy_tegument_current, recompute,
    compute_motivations, compute_cues, compute_deficit, eroded, deficit_of,
    motivation_of.
  state_fields.
  match goal with
  | |- context [if ?c then _ else _] => destruct c
  end; state_fields;
    (repeat split; try reflexivity);
    match goal with
    | H : _ /\ _ |- _ => destruct H as (H1 & H2 & H3 & H4 & H5 & H6)
    end; subst; reflexivity.
Qed.

(** The theorem after [update_vars(0)] has made the fields of Energy and
    Tegument current: damage of magnitude 1 then leaves them as they are. *)
Lemma induce_damage_effect_witness :
  energy_tegument_current (recompute calm_start)
  /\ def_energy (induce_damage fone (recompute calm_start))
     = def_energy (recompute calm_start).
Proof.
  assert (C : energy_tegument_current (recompute calm_start))
    by (unfold energy_tegument_current; split_conj; vm_compute; reflexivity).
  split; [exact C |].
  destruct (induce_damage_effect fone (recompute calm_start))
    as (_ & _ & _ & _ & _ & _ & K).
  exact (proj1 (K C)).
Defined.


(** ** Integrity cue *)

Lemma cue_integrity_compute_cues (st : state) :
  cue_integrity (compute_cues st)
  = get_mean_normalized (sensors st) 8 MIN_DIST MAX_DIST (indet st (indet_read st)).
Proof.
  destruct_state st. unfold compute_cues. state_fields. reflexivity.
Qed.

(** C6. The cue is the normalised mean only when the unassigned [mean]
    happens to hold 0, and even then it leaves [0,1]: on the frame that
    [get_sensors] stores for eight magnitudes of 0 (stored values 0) the cue
    is (0 - 80)/420, about -0.19, a negative number. *)
Theorem cue_integrity_negative_on_dark_frame :
  sensors dark_state = repeat 0 8
  /\ cue_integrity (compute_cues dark_state) = S754_finite true 12782641 (-26)
  /\ lt (cue_integrity (compute_cues dark_state)) (float_of_int 0) = true
  /\ le (float_of_int 0) (cue_integrity (compute_cues dark_state)) = false.
Proof. split_conj; vm_compute; reflexivity. Qed.

(** ** Dependence on unassigned objects *)

(** C9. Two runs from identical values of every file-scope object (sensor
    frame, history, speeds, need variables) give different results when the
    unassigned [mean] of the mean functions holds 0 in one and 1 in the
    other: the Integrity cue and motivation differ, and so does the flag of
    the speed heuristic and of the combined damage check (0 against 1). *)
Theorem damage_and_cue_depend_on_unassigned_mean :
  globals calm_start = globals calm_start_one
  /\ get_mean_normalized (sensors calm_start) 8 MIN_DIST MAX_DIST fzero
     <> get_mean_normalized (sensors calm_start_one) 8 MIN_DIST MAX_DIST fone
  /\ cue_integrity (compute_cues calm_start)
     <> cue_integrity (compute_cues calm_start_one)
  /\ mot_integrity (recompute (induce_damage fone calm_start))
     <> mot_integrity (recompute (induce_damage fone calm_start_one))
  /\ fst (speed_damage calm_start) = 0
  /\ fst (speed_damage calm_start_one) = 1
  /\ fst (check_if_damage calm_start) = 0
  /\ fst (check_if_damage calm_start_one) = 1.
Proof.
  split_conj; try (vm_compute; reflexivity);
    intros H; vm_compute in H; discriminate H.
Qed.

(** ** Speed-based damage *)

(** The integer quotients of [speed_damage] are 0 for every difference of
    two stored sensor values. *)
Lemma diff_over_TIME (d : Z) : - TIME < d < TIME -> CInt.div d TIME = 0.
Proof.
  unfold CInt.div, TIME. intros H.
  destruct (Z.le_gt_cases 0 d).
  - apply Z.quot_small. lia.
  - rewrite <- (Z.opp_involutive d), Z.quot_opp_l by lia.
    rewrite Z.quot_small by lia. reflexivity.
Qed.

Lemma MAX_DIST_over_TIME : CInt.div MAX_DIST TIME = 0.
Proof. reflexivity. Qed.

(** C3. On a one-pass spike on channel 3 (stored value 105 to 210, a
    difference of 105 above the threshold of 21) the speed heuristic does
    not fire: [diff/TIME] is an integer quotient, 0, so [speed[3]] stays 0;
    the mean is divided by [MAX_DIST/TIME] = 0; with [mean] starting from 0
    the function returns 0, and starting from 1 it returns 1, in both cases
    without any call of [induce_damage]: [Integrity.variable] is unchanged
    and no damage animation is requested. *)
Theorem speed_damage_spike_induces_nothing :
  (nth 3 (sensors (at_spike calm_garbage)) 0
   - nth 3 (prev_sensors (at_spike calm_garbage)) 0 = 105
   /\ gt (double_of_int 105)
        (dmul (double_lit 5 100) (double_of_int (CInt.sub MAX_DIST MIN_DIST)))
      = true)
  /\ (let r := speed_damage (at_spike calm_garbage) in
      fst r = 0
      /\ speed (snd r) = repeat fzero 8
      /\ var_integrity (snd r) = var_integrity (at_spike calm_garbage)
      /\ trace (snd r) = trace (at_spike calm_garbage))
  /\ (let r := speed_damage (at_spike (fun _ => fone)) in
      fst r = 1
      /\ speed (snd r) = repeat fzero 8
      /\ var_integrity (snd r) = var_integrity (at_spike (fun _ => fone))
      /\ trace (snd r) = trace (at_spike (fun _ => fone))).
Proof. cbv zeta. split_conj; vm_compute; reflexivity. Qed.

(** ** Loops, lists and the fields that carry the physiology *)

Lemma for_loop_ind {S : Type} (P : S -> Prop) (body : nat -> S -> S) :
  (forall i a, P a -> P (body i a)) ->
  forall count from s, P s -> P (for_loop from count body s).
Proof.
  intros Hbody count. unfold for_loop.
  induction count as [| n IH]; intros from s Hs; simpl.
  - exact Hs.
  - apply IH, Hbody, Hs.
Qed.

Lemma for_loop_rel {S : Type} (R : S -> S -> Prop) (body : nat -> S -> S) :
  (forall i a b, R a b -> R (body i a) (body i b)) ->
  forall count from a b, R a b ->
    R (for_loop from count body a) (for_loop from count body b).
Proof.
  intros Hbody count. unfold for_loop.
  induction count as [| n IH]; intros from a b Hab; simpl.
  - exact Hab.
  - apply IH, Hbody, Hab.
Qed.

Lemma for_loop_rel2 {S T : Type} (R : S -> T -> Prop)
  (f : nat -> S -> S) (g : nat -> T -> T) :
  (forall i a b, R a b -> R (f i a) (g i b)) ->
  forall count from a b, R a b ->
    R (for_loop from count f a) (for_loop from count g b).
Proof.
  intros Hfg count. unfold for_loop.
  induction count as [| n IH]; intros from a b Hab; simpl.
  - exact Hab.
  - apply IH, Hfg, Hab.
Qed.

Lemma for_loop_id {S : Type} (body : nat -> S -> S) (s : S) :
  (forall i, body i s = s) ->
  forall count from, for_loop from count body s = s.
Proof.
  intros Hbody count from.
  apply (for_loop_ind (fun a => a = s)); [| reflexivity].
  intros i a ->. apply Hbody.
Qed.

Lemma upd_repeat {A : Type} (v : A) (n i : nat) :
  upd i v (repeat v n) = repeat v n.
Proof.
  revert i. induction n as [| n IH]; intros [| i]; try reflexivity.
  unfold upd in *. simpl. f_equal. apply IH.
Qed.

Lemma Forall_upd {A : Type} (P : A -> Prop) (v : A) (l : list A) (i : nat) :
  P v -> Forall P l -> Forall P (upd i v l).
Proof.
  intros Hv Hl. unfold upd.
  rewrite <- (firstn_skipn i l) in Hl. apply Forall_app in Hl.
  destruct Hl as [Hf Hs]. apply Forall_app. split; [exact Hf |].
  destruct (skipn i l) as [| y r]; [constructor |].
  inversion Hs; subst. constructor; assumption.
Qed.

Lemma Forall_nth_default {A : Type} (P : A -> Prop) (d : A) (l : list A) (i : nat) :
  P d -> Forall P l -> P (nth i l d).
Proof.
  intros Hd Hl. destruct (Nat.lt_ge_cases i (length l)) as [H | H].
  - rewrite Forall_forall in Hl. apply Hl, nth_In, H.
  - rewrite nth_overflow by exact H. exact Hd.
Qed.

Lemma respects_decrease : respects decrease_physoligical_variables.
Proof. unfold respects, decrease_physoligical_variables. same_body. Qed.

Lemma respects_get_sensors (raw : list Z) : respects (get_sensors raw).
Proof.
  unfold respects, get_sensors. intros a b H.
  apply (for_loop_rel (fun a b => body a = body b)); [| exact H].
  intros i. same_body.
Qed.

Lemma respects_get_sensors_history : respects get_sensors_history.
Proof.
  unfold respects, get_sensors_history. intros a b H.
  apply (for_loop_rel (fun a b => body a = body b)); [| exact H].
  intros i. same_body.
Qed.

Lemma body_recompute (st : state) : body (recompute st) = body st.
Proof.
  destruct_state st.
  unfold body, recompute, compute_motivations, compute_cues, compute_deficit.
  state_fields. reflexivity.
Qed.

Lemma body_emit (e : event) (st : state) : body (emit e st) = body st.
Proof. destruct_state st. unfold body. state_fields. reflexivity. Qed.

Lemma body_induce_damage (level : float) (st : state) :
  body (induce_damage level st)
  = body (set_var_integrity (eroded level (var_integrity st)) st).
Proof.
  unfold induce_damage. cbv zeta.
  match goal with
  | |- context [if ?c then _ else _] => destruct c
  end; [rewrite body_emit |]; rewrite body_recompute; reflexivity.
Qed.

Lemma body_fields (a b : state) :
  body a = body b ->
  var_energy a = var_energy b /\ var_tegument a = var_tegument b
  /\ var_integrity a = var_integrity b /\ prev_sensors a = prev_sensors b
  /\ sensors a = sensors b /\ speed a = speed b /\ circ_speed a = circ_speed b.
Proof. unfold body. intros H. inversion H. repeat split; assumption. Qed.

Lemma respects_induce_damage (level : float) : respects (induce_damage level).
Proof.
  intros a b H. rewrite !body_induce_damage.
  destruct (body_fields a b H) as (_ & _ & -> & _).
  revert a b H. unfold eroded. same_body.
Qed.

Lemma respects_induce_damage_at (table : state -> list float) (i : nat) :
  (forall a b, body a = body b -> table a = table b) ->
  respects (fun s => induce_damage (nth i (table s) fzero) s).
Proof.
  intros Ht a b H. cbv beta. rewrite (Ht a b H).
  apply respects_induce_damage, H.
Qed.

Lemma respects_circ_measure : respects circ_measure.
Proof.
  intros a b H. unfold circ_measure. cbv zeta.
  apply (for_loop_rel (fun a b => body a = body b)); [| exact H].
  intros i. same_body.
Qed.

Lemma respects_circ_spread : respects circ_spread.
Proof.
  intros a b H. unfold circ_spread.
  apply (for_loop_rel (fun a b => body a = body b)); [| exact H].
  intros i. same_body.
Qed.

Lemma circ_speed_of_body (a b : state) : body a = body b -> circ_speed a = circ_speed b.
Proof. intros H. apply body_fields in H. tauto. Qed.

Lemma respects_circ_damage : respects (fun st => snd (circ_damage st)).
Proof.
  intros a b H. unfold circ_damage. cbv beta iota zeta delta [snd].
  apply (for_loop_rel (fun a b => body a = body b)).
  - intros i. apply (respects_induce_damage_at circ_speed), circ_speed_of_body.
  - apply respects_circ_spread, respects_circ_measure, H.
Qed.

(** *** What [circ_damage] leaves alone *)

Lemma window_of_body (a b : state) : body a = body b -> window a = window b.
Proof.
  intros H. apply body_fields in H.
  destruct H as (_ & _ & _ & Hp & Hs & Hv & _).
  unfold window. rewrite Hp, Hs, Hv. reflexivity.
Qed.

Lemma window_induce_damage (level : float) (st : state) :
  window (induce_damage level st) = window st.
Proof.
  rewrite (window_of_body _ _ (body_induce_damage level st)).
  destruct_state st. reflexivity.
Qed.

Lemma window_circ_measure (st : state) : window (circ_measure st) = window st.
Proof.
  unfold circ_measure. cbv zeta.
  apply (for_loop_ind (fun a => window a = window st)); [| reflexivity].
  intros i a <-. destruct_state a. unfold window. state_fields.
  match goal with
  | |- context [if ?c then _ else _] => destruct c
  end; reflexivity.
Qed.

Lemma window_circ_spread (st : state) : window (circ_spread st) = window st.
Proof.
  unfold circ_spread.
  apply (for_loop_ind (fun a => window a = window st)); [| reflexivity].
  intros i a <-. destruct_state a. unfold window. state_fields.
  match goal with
  | |- context [if ?c then _ else _] => destruct c
  end; reflexivity.
Qed.

Lemma window_circ_damage (st : state) : window (snd (circ_damage st)) = window st.
Proof.
  unfold circ_damage. cbv beta iota zeta delta [snd].
  rewrite <- (window_circ_measure st), <- (window_circ_spread (circ_measure st)).
  apply (for_loop_ind (fun a => window a = window (circ_spread (circ_measure st))));
    [| reflexivity].
  intros i a <-. apply window_induce_damage.
Qed.

(** *** The speed table never leaves zero *)

Lemma quiet_of_window (a b : state) : window a = window b -> quiet a -> quiet b.
Proof.
  unfold window, quiet. intros H. inversion H as [[Hp Hs Hv]].
  rewrite Hp, Hs, Hv. tauto.
Qed.

Lemma wrap_small (z : Z) : CInt.INT_MIN <= z <= CInt.INT_MAX -> CInt.wrap z = z.
Proof.
  unfold CInt.wrap, CInt.INT_MIN, CInt.INT_MAX. intros H.
  rewrite Z.mod_small by lia. lia.
Qed.

Lemma set_speed_same (st : state) : set_speed (speed st) st = st.
Proof. destruct_state st. reflexivity. Qed.

Lemma speed_set_indet_read (n : nat) (st : state) :
  speed (set_indet_read n st) = speed st.
Proof. reflexivity. Qed.

(** In a quiet state [speed_damage] changes no file-scope object: it only
    consumes one read of the unassigned [mean]; the speeds stay zero and
    [induce_damage] is not called, whatever value is returned. *)
Lemma speed_damage_inert (st : state) :
  quiet st ->
  snd (speed_damage st) = set_indet_read (S (indet_read st)) st.
Proof.
  intros (Hsp & Hs & Hp). unfold speed_damage.
  match goal with
  | |- context [for_loop 0 8 ?f st] =>
      assert (L1 : for_loop 0 8 f st = st)
  end.
  { apply for_loop_id. intros i. cbv beta zeta.
    rewrite Hsp, nth_repeat, upd_repeat.
    assert (Hd : - TIME <
                 CInt.sub (nth i (sensors st) 0) (nth i (prev_sensors st) 0)
                 < TIME).
    { assert (Hx : in_range (nth i (sensors st) 0))
        by (apply Forall_nth_default; [unfold in_range, MAX_DIST; lia | exact Hs]).
      assert (Hy : in_range (nth i (prev_sensors st) 0))
        by (apply Forall_nth_default; [unfold in_range, MAX_DIST; lia | exact Hp]).
      unfold in_range, MAX_DIST in Hx, Hy. unfold CInt.sub, TIME.
      rewrite wrap_small by (unfold CInt.INT_MIN, CInt.INT_MAX; lia). lia. }
    rewrite (diff_over_TIME _ Hd).
    replace (float_of_double
               (ddiv (double_of_float (fadd fzero (float_of_int 0)))
                     (double_lit 2 1)))
      with fzero by (vm_compute; reflexivity).
    rewrite upd_repeat.
    rewrite <- Hsp, set_speed_same.
    match goal with
    | |- context [if ?c then _ else _] => destruct c
    end; reflexivity. }
  rewrite L1. cbv beta iota zeta delta [read_indet].
  match goal with
  | |- context [for_loop 0 8 ?f (set_indet_read ?n st)] =>
      assert (L2 : for_loop 0 8 f (set_indet_read n st) = set_indet_read n st)
  end.
  { apply for_loop_id. intros i. cbv beta.
    rewrite speed_set_indet_read, Hsp, nth_repeat.
    replace (gt (double_of_float fzero) (double_lit 5 100)) with false
      by (vm_compute; reflexivity).
    reflexivity. }
  rewrite L2.
  match goal with
  | |- context [if ?c then _ else _] => destruct c
  end; reflexivity.
Qed.

(** *** One pass of the loop, seen from the physiology *)

Lemma quiet_set_sensors (v : list Z) (st : state) :
  Forall in_range v -> quiet st -> quiet (set_sensors v st).
Proof. destruct_state st. unfold quiet. state_fields. tauto. Qed.

Lemma quiet_set_prev_sensors (v : list Z) (st : state) :
  Forall in_range v -> quiet st -> quiet (set_prev_sensors v st).
Proof. destruct_state st. unfold quiet. state_fields. tauto. Qed.

Lemma in_range_0 : in_range 0.
Proof. unfold in_range, MAX_DIST. lia. Qed.

Lemma quiet_get_sensors (raw : list Z) (st : state) :
  quiet st -> quiet (get_sensors raw st).
Proof.
  unfold get_sensors. apply for_loop_ind. intros i a Ha.
  apply quiet_set_sensors; [| exact Ha].
  apply Forall_upd; [apply scale_sensor_bounds | apply Ha].
Qed.

Lemma quiet_get_sensors_history (st : state) :
  quiet st -> quiet (get_sensors_history st).
Proof.
  unfold get_sensors_history. apply for_loop_ind. intros i a Ha.
  apply quiet_set_prev_sensors; [| exact Ha].
  apply Forall_upd; [| apply Ha].
  apply Forall_nth_default; [apply in_range_0 | apply Ha].
Qed.

Lemma window_decrease (st : state) :
  window (decrease_physoligical_variables st) = window st.
Proof. destruct_state st. reflexivity. Qed.

Lemma quiet_initial_state (garbage : nat -> float) : quiet (initial_state garbage).
Proof.
  unfold quiet. split; [reflexivity |].
  split; simpl; repeat constructor; unfold MAX_DIST; lia.
Qed.

Lemma body_set_indet_read (n : nat) (st : state) :
  body (set_indet_read n st) = body st.
Proof. destruct_state st. reflexivity. Qed.

Lemma body_set_speeds (l r : float) (st : state) :
  body (set_right_speed r (set_left_speed l st)) = body st.
Proof. destruct_state st. reflexivity. Qed.

Lemma body_avoid (st : state) : body (avoid st) = body st.
Proof.
  unfold avoid, move. cbv zeta. rewrite body_emit, body_set_speeds.
  apply (for_loop_ind (fun a => body a = body st)); [| reflexivity].
  intros i a <-. apply body_set_speeds.
Qed.

Lemma body_compute_speed (bhv : Z) (st : state) :
  body (compute_speed bhv st) = body st.
Proof.
  assert (E : body (energy_behavioral_group st) = body st) by apply body_emit.
  assert (T : body (tegument_behavioral_group st) = body st) by apply body_emit.
  assert (D : body (set_right_speed (float_of_double (S754_zero false))
                      (set_left_speed (float_of_double (S754_zero false)) st))
              = body st) by apply body_set_speeds.
  unfold compute_speed, integrity_behavioral_group.
  destruct bhv as [| [[p | p |] | [p | p |] |] | p];
    first [exact E | exact T | exact D | apply body_avoid].
Qed.

Lemma update_vars_1 (raw : list Z) (st : state) :
  update_vars 1 raw st
  = recompute
      (snd (speed_damage
              (snd (circ_damage
                      (get_sensors raw (decrease_physoligical_variables st)))))).
Proof.
  unfold update_vars. change (negb (1 =? 0)) with true. cbv iota zeta.
  rewrite check_if_damage_eq. reflexivity.
Qed.

(** After the sensor refresh and the adjacency heuristic the state is
    quiet again. *)
Lemma quiet_before_speed_damage (raw : list Z) (st : state) :
  quiet st ->
  quiet (snd (circ_damage (get_sensors raw (decrease_physoligical_variables st)))).
Proof.
  intros Q. eapply quiet_of_window.
  - symmetry. apply window_circ_damage.
  - apply quiet_get_sensors.
    eapply quiet_of_window; [symmetry; apply window_decrease | exact Q].
Qed.

(** In a quiet state the physiology after a pass is the one left by the
    decay, the sensor refresh, the adjacency heuristic and the archiving of
    the frame: the speed heuristic, the cues, the arbitration and the
    dispatch add nothing to it. *)
Lemma body_tick (raw : list Z) (st : state) :
  quiet st ->
  body (tick raw st)
  = body (get_sensors_history
            (snd (circ_damage
                    (get_sensors raw (decrease_physoligical_variables st))))).
Proof.
  intros Q. unfold tick. cbv zeta. rewrite body_emit.
  apply respects_get_sensors_history.
  unfold move. rewrite body_emit, body_compute_speed, update_vars_1.
  rewrite body_recompute.
  rewrite (speed_damage_inert _ (quiet_before_speed_damage raw st Q)).
  apply body_set_indet_read.
Qed.

Lemma quiet_tick (raw : list Z) (st : state) : quiet st -> quiet (tick raw st).
Proof.
  intros Q. eapply quiet_of_window.
  - symmetry. apply window_of_body, body_tick, Q.
  - apply quiet_get_sensors_history, quiet_before_speed_damage, Q.
Qed.

Lemma respects_tick (raw : list Z) (a b : state) :
  quiet a -> quiet b -> body a = body b -> body (tick raw a) = body (tick raw b).
Proof.
  intros Qa Qb H. rewrite (body_tick raw a Qa), (body_tick raw b Qb).
  apply respects_get_sensors_history, respects_circ_damage,
    respects_get_sensors, respects_decrease, H.
Qed.

Lemma respects_ticks (frames : list (list Z)) :
  forall a b, quiet a -> quiet b -> body a = body b ->
    body (ticks frames a) = body (ticks frames b).
Proof.
  induction frames as [| raw rest IH]; intros a b Qa Qb H; simpl.
  - exact H.
  - apply IH; [apply quiet_tick, Qa | apply quiet_tick, Qb |].
    apply respects_tick; assumption.
Qed.

Lemma quiet_ticks (frames : list (list Z)) :
  forall st, quiet st -> quiet (ticks frames st).
Proof.
  induction frames as [| raw rest IH]; intros st Q; simpl.
  - exact Q.
  - apply IH, quiet_tick, Q.
Qed.

(** *** Every pass of every run *)

(** Whatever the sensors deliver and whatever unassigned objects hold, the
    states of the loop are quiet, so the call of [speed_damage] in the next
    pass erodes nothing and requests no animation. *)
Lemma quiet_reachable (garbage : nat -> float) (first : list Z)
  (frames : list (list Z)) :
  quiet (ticks frames (get_sensors first (initial_state garbage))).
Proof. apply quiet_ticks, quiet_get_sensors, quiet_initial_state. Qed.

Lemma speed_damage_inert_in_every_pass (garbage : nat -> float)
  (first raw : list Z) (frames : list (list Z)) :
  let st := ticks frames (get_sensors first (initial_state garbage)) in
  let pre := snd (circ_damage
                    (get_sensors raw (decrease_physoligical_variables st))) in
  snd (speed_damage pre) = set_indet_read (S (indet_read pre)) pre.
Proof.
  cbv zeta. apply speed_damage_inert, quiet_before_speed_damage, quiet_reachable.
Qed.


(** *** The lean pass *)

Lemma respects_erode_all : respects erode_all.
Proof.
  intros a b H. unfold erode_all.
  apply (for_loop_rel (fun a b => body a = body b)); [| exact H].
  intros i. same_body.
Qed.

Lemma respects_lean_tick (raw : list Z) : respects (lean_tick raw).
Proof.
  intros a b H. unfold lean_tick.
  apply respects_get_sensors_history, respects_erode_all, respects_circ_spread,
    respects_circ_measure, respects_get_sensors, respects_decrease, H.
Qed.

(** The erosions of [induce_damage] are those of the lean pass. *)
Lemma body_erode_all (a b : state) :
  body a = body b ->
  body (for_loop 0 7 (fun i s => induce_damage (nth i (circ_speed s) fzero) s) a)
  = body (erode_all b).
Proof.
  intros H. unfold erode_all.
  apply (for_loop_rel2 (fun a b => body a = body b)); [| exact H].
  intros i x y Hxy. rewrite body_induce_damage. revert x y Hxy. same_body.
Qed.

(** In a quiet state a pass of the loop and the lean pass leave the same
    need variables, frames and speed tables. *)
Lemma body_tick_lean (raw : list Z) (st : state) :
  quiet st -> body (tick raw st) = body (lean_tick raw st).
Proof.
  intros Q. rewrite (body_tick raw st Q). unfold lean_tick.
  apply respects_get_sensors_history.
  unfold circ_damage. cbv beta iota zeta delta [snd].
  apply body_erode_all. reflexivity.
Qed.

Lemma body_ticks_lean (frames : list (list Z)) :
  forall a b, quiet a -> body a = body b ->
    body (ticks frames a) = body (lean_ticks frames b).
Proof.
  induction frames as [| raw rest IH]; intros a b Q H; simpl.
  - exact H.
  - apply IH; [apply quiet_tick, Q |].
    rewrite (body_tick_lean raw a Q). apply respects_lean_tick, H.
Qed.

(** The need variables of a run do not depend on what unassigned objects
    hold. *)
Lemma variables_independent_of_garbage (g1 g2 : nat -> float) (first : list Z)
  (frames : list (list Z)) :
  body (ticks frames (get_sensors first (initial_state g1)))
  = body (ticks frames (get_sensors first (initial_state g2))).
Proof.
  apply respects_ticks.
  - apply quiet_get_sensors, quiet_initial_state.
  - apply quiet_get_sensors, quiet_initial_state.
  - apply respects_get_sensors. reflexivity.
Qed.

(** *** Constant readings *)

Lemma body_constant_run (garbage : nat -> float) (r : Z) (n : nat) :
  body (constant_run garbage r n) = body (lean_run r n).
Proof.
  unfold constant_run, lean_run. apply body_ticks_lean.
  - apply quiet_get_sensors, quiet_initial_state.
  - apply respects_get_sensors. reflexivity.
Qed.

Lemma for_loop_ext {S : Type} (f g : nat -> S -> S) :
  (forall i s, f i s = g i s) ->
  forall count from s, for_loop from count f s = for_loop from count g s.
Proof.
  intros Hfg count. unfold for_loop.
  induction count as [| n IH]; intros from s; simpl.
  - reflexivity.
  - rewrite Hfg. apply IH.
Qed.

(** [get_sensors] looks at a frame only through [scale_sensor]. *)
Lemma get_sensors_ext (raw raw' : list Z) (st : state) :
  (forall i, scale_sensor (nth i raw 0) = scale_sensor (nth i raw' 0)) ->
  get_sensors raw st = get_sensors raw' st.
Proof.
  intros H. unfold get_sensors. apply for_loop_ext.
  intros i s. rewrite H. reflexivity.
Qed.

Lemma scale_constant_frame (r r' : Z) :
  scale_sensor r = scale_sensor r' ->
  forall i, scale_sensor (nth i (repeat r 8) 0) = scale_sensor (nth i (repeat r' 8) 0).
Proof.
  intros H i.
  do 8 (destruct i as [| i]; [exact H |]).
  simpl. destruct i; reflexivity.
Qed.

Lemma lean_tick_ext (raw raw' : list Z) (st : state) :
  (forall i, scale_sensor (nth i raw 0) = scale_sensor (nth i raw' 0)) ->
  lean_tick raw st = lean_tick raw' st.
Proof.
  intros H. unfold lean_tick.
  rewrite (get_sensors_ext raw raw' _ H). reflexivity.
Qed.

Lemma lean_ticks_constant_ext (r r' : Z) :
  scale_sensor r = scale_sensor r' ->
  forall n st,
    lean_ticks (repeat (repeat r 8) n) st = lean_ticks (repeat (repeat r' 8) n) st.
Proof.
  intros H n. induction n as [| n IH]; intros st.
  - reflexivity.
  - change (repeat (repeat r 8) (S n)) with (repeat r 8 :: repeat (repeat r 8) n).
    change (repeat (repeat r' 8) (S n))
      with (repeat r' 8 :: repeat (repeat r' 8) n).
    cbn [lean_ticks].
    rewrite (lean_tick_ext _ _ st (scale_constant_frame r r' H)). apply IH.
Qed.

Lemma lean_run_ext (r r' : Z) (n : nat) :
  scale_sensor r = scale_sensor r' -> lean_run r n = lean_run r' n.
Proof.
  intros H. unfold lean_run.
  rewrite (lean_ticks_constant_ext r r' H).
  rewrite (get_sensors_ext _ _ _ (scale_constant_frame r r' H)). reflexivity.
Qed.

Lemma same_float_eq (x y : spec_float) : same_float x y = true -> x = y.
Proof.
  destruct x as [a | a | | a m e], y as [b | b | | b n f]; simpl;
    try discriminate; try reflexivity.
  - intros H. apply Bool.eqb_prop in H. congruence.
  - intros H. apply Bool.eqb_prop in H. congruence.
  - rewrite !andb_true_iff. intros [[H1 H2] H3].
    apply Bool.eqb_prop in H1. apply Pos.eqb_eq in H2. apply Z.eqb_eq in H3.
    congruence.
Qed.

(** Every stored value from 1 to 210, through the magnitude 80 + 2s that
    [get_sensors] stores as s, and the saturated value. *)
Lemma scenario_A_every_stored_value :
  forallb (fun k => scenario_A_values (lean_run (80 + 2 * Z.of_nat (S k)) 10))
          (seq 0 210) = true
  /\ scenario_A_values (lean_run 501 10) = true.
Proof. split; vm_cast_no_check (eq_refl true). Qed.

Lemma scale_sensor_representative (r : Z) :
  MIN_DIST + 2 <= r ->
  (exists k, (k < 210)%nat
             /\ scale_sensor r = scale_sensor (80 + 2 * Z.of_nat (S k)))
  \/ scale_sensor r = scale_sensor 501.
Proof.
  unfold MIN_DIST. intros H.
  destruct (Z.le_gt_cases r 500) as [L | G].
  - left. exists (Z.to_nat ((r - 80) / 2 - 1)).
    assert (1 <= (r - 80) / 2) by (apply Z.div_le_lower_bound; lia).
    assert ((r - 80) / 2 <= 210) by (apply Z.div_le_upper_bound; lia).
    split; [lia |].
    replace (Z.of_nat (S (Z.to_nat ((r - 80) / 2 - 1)))) with ((r - 80) / 2) by lia.
    unfold scale_sensor, MAX_DIST, MIN_DIST.
    destruct (r >? 500) eqn:E1; [lia |].
    destruct (r <? 80) eqn:E2; [lia |].
    destruct (80 + 2 * ((r - 80) / 2) >? 500) eqn:E3; [lia |].
    destruct (80 + 2 * ((r - 80) / 2) <? 80) eqn:E4; [lia |].
    rewrite !Z.shiftr_div_pow2 by lia. change (2 ^ 1) with 2.
    replace (80 + 2 * ((r - 80) / 2) - 80) with ((r - 80) / 2 * 2) by lia.
    rewrite Z.div_mul by lia. reflexivity.
  - right. unfold scale_sensor, MAX_DIST.
    destruct (r >? 500) eqn:E1; [reflexivity | lia].
Qed.

Lemma scenario_A_values_lean (r : Z) :
  MIN_DIST + 2 <= r -> scenario_A_values (lean_run r 10) = true.
Proof.
  intros H.
  destruct (scale_sensor_representative r H) as [(k & Hk & E) | E];
    rewrite (lean_run_ext _ _ 10 E).
  - pose proof (proj1 scenario_A_every_stored_value) as All.
    rewrite forallb_forall in All. apply (All k). apply in_seq. lia.
  - exact (proj2 scenario_A_every_stored_value).
Qed.

Lemma scenario_A_values_body (a b : state) :
  body a = body b -> scenario_A_values a = scenario_A_values b.
Proof.
  intros H. apply body_fields in H. destruct H as (He & Ht & Hi & _).
  unfold scenario_A_values. rewrite He, Ht, Hi. reflexivity.
Qed.

Lemma scenario_A_values_spec (st : state) :
  scenario_A_values st = true ->
  var_energy st = energy_after_10
  /\ var_tegument st = tegument_after_10
  /\ var_integrity st = integrity_after_10.
Proof.
  unfold scenario_A_values. rewrite !andb_true_iff. intros [[He Ht] Hi].
  split_conj; apply same_float_eq; assumption.
Qed.

(** The closed facts about the three values: Energy and Tegument are 1.0
    after ten decays, each rounded to float, which leaves them a little
    under 0.96 and 0.985; Integrity is 1.0 after nine settled erosions,
    under 1.0. *)
Lemma scenario_A_values_meaning :
  energy_after_10 = Nat.iter 10 energy_decay fone
  /\ tegument_after_10 = Nat.iter 10 tegument_decay fone
  /\ integrity_after_10 = Nat.iter 9 settled_erosion fone
  /\ (lt (double_lit 9599999 10000000) (double_of_float energy_after_10) = true
      /\ lt (double_of_float energy_after_10) (double_lit 96 100) = true)
  /\ (lt (double_lit 9849998 10000000) (double_of_float tegument_after_10) = true
      /\ lt (double_of_float tegument_after_10) (double_lit 985 1000) = true)
  /\ (lt (double_lit 99962 100000) (double_of_float integrity_after_10) = true
      /\ lt (double_of_float integrity_after_10) (double_lit 99963 100000) = true).
Proof. split_conj; vm_compute; reflexivity. Qed.

(** C5, as stated, fails: after the ten passes of scenario A
    [Integrity.variable] is not 1.0 but below it (and [Energy.variable] is
    not the float 0.96 but the float just under it). *)
Lemma scenario_A_integrity_not_one :
  model calm_garbage calm_frame (repeat calm_frame 10) = (Running, scenario_A)
  /\ var_integrity scenario_A <> float_of_double (double_lit 1 1)
  /\ lt (var_integrity scenario_A) (float_of_double (double_lit 1 1)) = true
  /\ var_energy scenario_A <> float_of_double (double_lit 96 100).
Proof.
  split_conj; try (vm_compute; reflexivity);
    intros H; vm_compute in H; discriminate H.
Qed.

(** C5, amended. Starting from all three need variables at 1.0, with every
    sensor at one constant reading [r] that is stored as a non-zero value
    (r >= 82), and whatever unassigned objects hold, after 10 passes
    [Energy.variable] is 1.0 decayed ten times by 0.004 with float
    rounding (0.95999992, just under 0.96), [Tegument.variable] is 1.0
    decayed ten times by 0.0015 (0.98499990, just under 0.985), and
    [Integrity.variable] is below 1.0 (0.99962825): from the second pass
    on the adjacency heuristic induces damage in every pass. *)
Theorem scenario_A_constant_reading (garbage : nat -> float) (r : Z) :
  MIN_DIST + 2 <= r ->
  let st := constant_run garbage r 10 in
  (var_energy st = energy_after_10
   /\ var_tegument st = tegument_after_10
   /\ var_integrity st = integrity_after_10)
  /\ (energy_after_10 = Nat.iter 10 energy_decay fone
      /\ lt (double_lit 9599999 10000000) (double_of_float energy_after_10) = true
      /\ lt (double_of_float energy_after_10) (double_lit 96 100) = true)
  /\ (tegument_after_10 = Nat.iter 10 tegument_decay fone
      /\ lt (double_lit 9849998 10000000) (double_of_float tegument_after_10) = true
      /\ lt (double_of_float tegument_after_10) (double_lit 985 1000) = true)
  /\ (integrity_after_10 = Nat.iter 9 settled_erosion fone
      /\ lt integrity_after_10 fone = true).
Proof.
  intros H. cbv zeta.
  destruct scenario_A_values_meaning as (E & T & I & (E1 & E2) & (T1 & T2) & _).
  split; [| split; [| split]].
  - apply scenario_A_values_spec.
    rewrite (scenario_A_values_body _ _ (body_constant_run garbage r 10)).
    apply scenario_A_values_lean, H.
  - split_conj; [exact E | exact E1 | exact E2].
  - split_conj; [exact T | exact T1 | exact T2].
  - split; [exact I | vm_compute; reflexivity].
Qed.

(** The theorem at the reading 290 with unassigned objects holding 0. *)
Lemma scenario_A_constant_reading_witness :
  MIN_DIST + 2 <= 290
  /\ var_integrity (constant_run calm_garbage 290 10) = integrity_after_10.
Proof.
  assert (H : MIN_DIST + 2 <= 290) by (unfold MIN_DIST; lia).
  split; [exact H |].
  exact (proj2 (proj2 (proj1 (scenario_A_constant_reading calm_garbage 290 H)))).
Defined.

(** ** Rounding never exceeds a power of two *)

Lemma digits2_pos_size (p : positive) : digits2_pos p = Pos.size p.
Proof. induction p; simpl; congruence. Qed.

Lemma digits2_pos_le (m : positive) (j : Z) :
  0 <= j -> Zpos m <= 2 ^ j -> Zpos (digits2_pos m) <= j + 1.
Proof.
  intros Hj Hm. rewrite digits2_pos_size.
  assert (H : 2 ^ Zpos (Pos.size m) <= 2 * Zpos m).
  { pose proof (Pos.size_le m) as H. apply Pos2Z.pos_le_pos in H.
    rewrite Pos2Z.inj_pow in H. exact H. }
  destruct (Z_le_gt_dec (Zpos (Pos.size m)) (j + 1)) as [L | G]; [exact L |].
  exfalso.
  assert (P : 2 ^ (j + 2) <= 2 ^ Zpos (Pos.size m))
    by (apply Z.pow_le_mono_r; lia).
  rewrite Z.pow_add_r in P by lia. change (2 ^ 2) with 4 in P.
  pose proof (Z.pow_pos_nonneg 2 j ltac:(lia) Hj). lia.
Qed.

Lemma halved_shr_1 (m0 j : Z) (mrs : shr_record) :
  0 <= j -> halved m0 j mrs -> halved m0 (j + 1) (shr_1 mrs).
Proof.
  intros Hj (H0 & Hle & Hlt).
  assert (E : 2 ^ (j + 1) = 2 ^ j * 2)
    by (rewrite Z.pow_add_r by lia; reflexivity).
  pose proof (Z.pow_pos_nonneg 2 j ltac:(lia) Hj) as P.
  destruct mrs as [m r s]. unfold halved.
  cbn [shr_m shr_r shr_s] in *. rewrite E.
  destruct m as [| [p | p |] | p]; cbn [shr_1 shr_m shr_r shr_s];
    try rewrite orb_false_l; try rewrite orb_true_l.
  - split; [lia |]. split; [lia |]. exact Hlt.
  - rewrite (Pos2Z.inj_xI p) in *.
    split; [lia |]. split; [nia |]. intros _. nia.
  - rewrite (Pos2Z.inj_xO p) in *.
    split; [lia |]. split; [nia |]. intros H. specialize (Hlt H). nia.
  - split; [lia |]. split; [lia |]. intros _. lia.
  - lia.
Qed.

Lemma halved_iter_pos (m0 : Z) (p : positive) :
  forall (j : Z) (mrs : shr_record),
    0 <= j -> halved m0 j mrs -> halved m0 (j + Zpos p) (iter_pos shr_1 p mrs).
Proof.
  induction p as [p IH | p IH |]; intros j mrs Hj H; simpl.
  - replace (j + Zpos p~1) with (((j + 1) + Zpos p) + Zpos p)
      by (rewrite Pos2Z.inj_xI; lia).
    apply IH; [lia |]. apply IH; [lia |]. apply halved_shr_1; assumption.
  - replace (j + Zpos p~0) with ((j + Zpos p) + Zpos p)
      by (rewrite Pos2Z.inj_xO; lia).
    apply IH; [lia |]. apply IH; assumption.
  - apply halved_shr_1; assumption.
Qed.

Section Rounding.

Variables prec emax : Z.

Lemma shr_fexp_halved (m0 e : Z) :
  0 <= m0 ->
  let r := shr_fexp prec emax m0 e loc_Exact in
  snd r = Z.max e (fexp prec emax (Zdigits2 m0 + e))
  /\ halved m0 (snd r - e) (fst r).
Proof.
  intros H0. unfold shr_fexp, shr.
  set (f := fexp prec emax (Zdigits2 m0 + e)).
  assert (B : halved m0 0 (shr_record_of_loc m0 loc_Exact)).
  { unfold halved. simpl. split; [exact H0 |]. split; [lia |]. discriminate. }
  destruct (f - e) as [| p | p] eqn:E; simpl.
  - split; [lia |]. replace (e - e) with 0 by lia. exact B.
  - split; [lia |]. replace (e + Zpos p - e) with (0 + Zpos p) by lia.
    apply halved_iter_pos; [lia | exact B].
  - split; [lia |]. replace (e - e) with 0 by lia. exact B.
Qed.

Lemma round_nearest_even_cases (m : Z) (mrs : shr_record) :
  round_nearest_even m (loc_of_shr_record mrs) = m
  \/ (round_nearest_even m (loc_of_shr_record mrs) = m + 1
      /\ shr_r mrs || shr_s mrs = true).
Proof.
  destruct mrs as [m' [|] [|]]; simpl; auto.
  destruct (Z.even m); auto.
Qed.

Lemma binary_round_aux_signed (s : bool) (m : positive) (e : Z) :
  signed s (binary_round_aux prec emax s (Zpos m) e loc_Exact).
Proof.
  unfold binary_round_aux.
  pose proof (shr_fexp_halved (Zpos m) e ltac:(lia)) as [_ (H1 & _)].
  destruct (shr_fexp prec emax (Zpos m) e loc_Exact) as [mrs1 e1].
  cbn [fst snd] in H1.
  set (m2 := round_nearest_even (shr_m mrs1) (loc_of_shr_record mrs1)).
  assert (H2 : 0 <= m2).
  { unfold m2. destruct (round_nearest_even_cases (shr_m mrs1) mrs1) as [-> | [-> _]]; lia. }
  pose proof (shr_fexp_halved m2 e1 H2) as [_ (H3 & _)].
  destruct (shr_fexp prec emax m2 e1 loc_Exact) as [mrs2 e2].
  cbn [fst snd] in H3.
  destruct (shr_m mrs2) as [| p | p]; simpl; [reflexivity | | lia].
  destruct (e2 <=? emax - prec); reflexivity.
Qed.

Hypothesis prec_pos : 1 <= prec.

Lemma pow2_split (a b : Z) : 0 <= a -> 0 <= b -> 2 ^ (a + b) = 2 ^ a * 2 ^ b.
Proof. intros. apply Z.pow_add_r; assumption. Qed.

Lemma binary_round_aux_below (k : Z) (m : positive) (e : Z) :
  emin prec emax <= k -> k <= emax - prec ->
  e <= k -> Zpos m <= 2 ^ (k - e) ->
  below k (binary_round_aux prec emax false (Zpos m) e loc_Exact).
Proof.
  intros Hmin Hmax He Hm. unfold binary_round_aux.
  pose proof (shr_fexp_halved (Zpos m) e ltac:(lia)) as [E1 (H1 & L1 & S1)].
  destruct (shr_fexp prec emax (Zpos m) e loc_Exact) as [mrs1 e1].
  cbn [fst snd] in E1, H1, L1, S1.
  assert (Ee1 : e <= e1) by lia.
  assert (Ke1 : e1 <= k).
  { rewrite E1. apply Z.max_lub; [exact He |].
    unfold fexp. apply Z.max_lub; [| exact Hmin].
    pose proof (digits2_pos_le m (k - e) ltac:(lia) Hm).
    change (Zdigits2 (Zpos m)) with (Zpos (digits2_pos m)). lia. }
  set (m2 := round_nearest_even (shr_m mrs1) (loc_of_shr_record mrs1)).
  assert (P1 : 0 < 2 ^ (e1 - e)) by (apply Z.pow_pos_nonneg; lia).
  assert (Sp : 2 ^ (k - e) = 2 ^ (k - e1) * 2 ^ (e1 - e)).
  { rewrite <- pow2_split by lia. f_equal. lia. }
  assert (H2 : 0 <= m2 /\ m2 <= 2 ^ (k - e1)).
  { unfold m2.
    destruct (round_nearest_even_cases (shr_m mrs1) mrs1) as [-> | [-> R]].
    - split; [lia |]. nia.
    - specialize (S1 R). split; [lia |]. nia. }
  destruct H2 as [H2 B2].
  pose proof (shr_fexp_halved m2 e1 H2) as [E2 (H3 & L3 & _)].
  destruct (shr_fexp prec emax m2 e1 loc_Exact) as [mrs2 e2].
  cbn [fst snd] in E2, H3, L3.
  destruct (shr_m mrs2) as [| p | p] eqn:Em; simpl; [exact I | | lia].
  assert (Ee2 : e1 <= e2) by lia.
  assert (P2 : 0 < 2 ^ (e2 - e1)) by (apply Z.pow_pos_nonneg; lia).
  assert (Ke2 : e2 <= k).
  { destruct (Z_le_gt_dec e2 k) as [L | G]; [exact L | exfalso].
    assert (Q : 2 ^ (k - e1 + 1) <= 2 ^ (e2 - e1))
      by (apply Z.pow_le_mono_r; lia).
    rewrite pow2_split in Q by lia. change (2 ^ 1) with 2 in Q.
    pose proof (Z.pow_pos_nonneg 2 (k - e1) ltac:(lia) ltac:(lia)). nia. }
  replace (e2 <=? emax - prec) with true by (symmetry; apply Z.leb_le; lia).
  simpl. split; [exact Ke2 |].
  assert (Sp2 : 2 ^ (k - e1) = 2 ^ (k - e2) * 2 ^ (e2 - e1)).
  { rewrite <- pow2_split by lia. f_equal. lia. }
  nia.
Qed.

Lemma shl_align_spec (mx : positive) (ex ex' : Z) :
  snd (shl_align mx ex ex') <= ex
  /\ Zpos (fst (shl_align mx ex ex'))
     = Zpos mx * 2 ^ (ex - snd (shl_align mx ex ex')).
Proof.
  unfold shl_align. destruct (ex' - ex) as [| d | d] eqn:E; simpl.
  - split; [lia |]. replace (ex - ex) with 0 by lia. simpl. lia.
  - split; [lia |]. replace (ex - ex) with 0 by lia. simpl. lia.
  - split; [lia |]. replace (ex - ex') with (Zpos d) by lia.
    clear E. rewrite <- Pos2Z.inj_pow.
    revert mx. induction d using Pos.peano_ind; intros mx.
    + simpl. rewrite Pos.pow_1_r, Pos2Z.inj_mul, Pos2Z.inj_xO. lia.
    + rewrite Pos.iter_succ, Pos2Z.inj_xO, IHd, Pos.pow_succ_r,
        !Pos2Z.inj_mul. lia.
Qed.

Lemma shl_align_fst (mx : positive) (ex ez : Z) :
  ez <= ex -> Zpos (fst (shl_align mx ex ez)) = Zpos mx * 2 ^ (ex - ez).
Proof.
  intros H. unfold shl_align. destruct (ez - ex) as [| d | d] eqn:E; simpl.
  - replace (ex - ez) with 0 by lia. simpl. lia.
  - lia.
  - replace (ex - ez) with (Zpos d) by lia.
    clear E H. rewrite <- Pos2Z.inj_pow.
    revert mx. induction d using Pos.peano_ind; intros mx.
    + simpl. rewrite Pos.pow_1_r, Pos2Z.inj_mul, Pos2Z.inj_xO. lia.
    + rewrite Pos.iter_succ, Pos2Z.inj_xO, IHd, Pos.pow_succ_r,
        !Pos2Z.inj_mul. lia.
Qed.

Lemma binary_round_signed (s : bool) (m : positive) (e : Z) :
  signed s (binary_round prec emax s m e).
Proof.
  unfold binary_round.
  destruct (shl_align m e _) as [mz ez]. apply binary_round_aux_signed.
Qed.

Lemma binary_round_below (k : Z) (m : positive) (e : Z) :
  emin prec emax <= k -> k <= emax - prec ->
  e <= k -> Zpos m <= 2 ^ (k - e) ->
  below k (binary_round prec emax false m e).
Proof.
  intros Hmin Hmax He Hm. unfold binary_round.
  pose proof (shl_align_spec m e (fexp prec emax (Zpos (digits2_pos m) + e)))
    as [L E].
  destruct (shl_align m e _) as [mz ez]. cbn [fst snd] in L, E.
  apply binary_round_aux_below; try assumption; [lia |].
  rewrite E.
  replace (k - ez) with ((k - e) + (e - ez)) by lia.
  rewrite pow2_split by lia.
  pose proof (Z.pow_pos_nonneg 2 (e - ez) ltac:(lia) ltac:(lia)). nia.
Qed.

End Rounding.

(** ** Signs and bounds through the operations of the program *)

Lemma signed_not_nan (s : bool) (x : spec_float) : signed s x -> is_nan x = false.
Proof. destruct x; simpl; intros H; [reflexivity | reflexivity | contradiction | reflexivity]. Qed.

Lemma at_most_one_not_nan (x : spec_float) : at_most_one x -> is_nan x = false.
Proof.
  intros [H | H]; [| exact (signed_not_nan _ _ H)].
  destruct x; simpl in *; try reflexivity; contradiction.
Qed.

Section Formats.

Variables prec emax : Z.
Hypothesis prec_pos : 1 <= prec.
Hypothesis emin_neg : emin prec emax <= 0.
Hypothesis emax_pos : 0 <= emax - prec.

Lemma binary_normalize_not_nan (z e : Z) (s : bool) :
  is_nan (binary_normalize prec emax z e s) = false.
Proof.
  destruct z as [| p | p]; simpl; [reflexivity | |];
    eapply signed_not_nan, binary_round_signed.
Qed.

(** Rounding a finite number keeps its sign. *)
Lemma normalize_signed (s : bool) (m : positive) (e : Z) :
  signed s (binary_normalize prec emax (cond_Zopp s (Zpos m)) e s).
Proof. destruct s; simpl; apply binary_round_signed. Qed.

Lemma normalize_at_most_one (s : bool) (m : positive) (e : Z) :
  at_most_one (S754_finite s m e) ->
  at_most_one (binary_normalize prec emax (cond_Zopp s (Zpos m)) e s).
Proof.
  intros H. destruct s.
  - right. apply (normalize_signed true).
  - left. destruct H as [[He Hm] | H]; [| discriminate H].
    simpl. apply binary_round_below; assumption.
Qed.

Lemma SFsub_finite_not_nan (x : spec_float) (s : bool) (m : positive) (e : Z) :
  is_nan x = false -> is_nan (SFsub prec emax x (S754_finite s m e)) = false.
Proof.
  destruct x as [sx | sx | | sx mx ex]; intros H; try discriminate H;
    cbn [SFsub]; try reflexivity.
  apply binary_normalize_not_nan.
Qed.

Lemma SFmul_finite_signed (sx sy : bool) (x : spec_float) (m : positive) (e : Z) :
  signed sx x -> signed (xorb sx sy) (SFmul prec emax x (S754_finite sy m e)).
Proof.
  destruct x as [s | s | | s mx ex]; cbn [signed SFmul]; intros H;
    try contradiction; subst; try reflexivity.
  apply binary_round_aux_signed.
Qed.

(** Taking a number that is not negative from a number that is at most 1
    leaves a number that is at most 1. *)
Lemma SFsub_at_most_one (x p : spec_float) :
  at_most_one x -> signed false p -> at_most_one (SFsub prec emax x p).
Proof.
  intros Hx Hp.
  destruct p as [sp | sp | | sp mp ep]; cbn [signed] in Hp;
    try contradiction; subst sp.
  - (* p is zero *)
    destruct x as [sx | sx | | sx mx ex]; cbn [SFsub]; try exact Hx.
    destruct sx; left; exact I.
  - (* p is plus infinity *)
    destruct x as [sx | sx | | sx mx ex]; cbn [SFsub];
      try (right; reflexivity).
    + destruct sx; [right; reflexivity |].
      destruct Hx as [H | H]; [contradiction H | discriminate H].
    + apply at_most_one_not_nan in Hx. discriminate Hx.
  - (* p is a positive number *)
    destruct x as [sx | sx | | sx mx ex]; cbn [SFsub].
    + right. reflexivity.
    + exact Hx.
    + exact Hx.
    + set (ez := Z.min ex ep).
      pose proof (shl_align_fst mx ex ez ltac:(lia)) as Ex.
      pose proof (shl_align_fst mp ep ez ltac:(lia)) as Ep.
      set (ax := fst (shl_align mx ex ez)) in *.
      set (ap := fst (shl_align mp ep ez)) in *.
      cbn [cond_Zopp].
      destruct (cond_Zopp sx (Zpos ax) - Zpos ap) as [| z | z] eqn:Ez;
        cbn [binary_normalize].
      * left. exact I.
      * left. destruct sx; cbn [cond_Zopp] in Ez; [lia |].
        destruct Hx as [[He Hm] | H]; [| discriminate H].
        apply binary_round_below; try assumption; [lia |].
        assert (S : 2 ^ (0 - ez) = 2 ^ (0 - ex) * 2 ^ (ex - ez)).
        { rewrite <- Z.pow_add_r by lia. f_equal. lia. }
        pose proof (Z.pow_pos_nonneg 2 (ex - ez) ltac:(lia) ltac:(lia)).
        nia.
      * right. apply binary_round_signed.
Qed.

End Formats.

Lemma round_double_not_nan (x : spec_float) :
  is_nan x = false -> is_nan (round_double x) = false.
Proof.
  destruct x as [s | s | | s m e]; intros H; try discriminate H;
    try reflexivity.
  exact (signed_not_nan _ _ (normalize_signed 53 1024 s m e)).
Qed.

Lemma round_float_not_nan (x : spec_float) :
  is_nan x = false -> is_nan (round_float x) = false.
Proof.
  destruct x as [s | s | | s m e]; intros H; try discriminate H;
    try reflexivity.
  exact (signed_not_nan _ _ (normalize_signed 24 128 s m e)).
Qed.

Lemma round_double_signed (s : bool) (x : spec_float) :
  signed s x -> signed s (round_double x).
Proof.
  destruct x as [sx | sx | | sx m e]; cbn [signed round_double]; intros H;
    try exact H.
  subst. apply normalize_signed.
Qed.

Lemma round_double_at_most_one (x : spec_float) :
  at_most_one x -> at_most_one (round_double x).
Proof.
  destruct x as [sx | sx | | sx m e]; cbn [round_double]; intros H;
    try exact H.
  apply normalize_at_most_one; [lia | | | exact H]; vm_compute; discriminate.
Qed.

Lemma round_float_at_most_one (x : spec_float) :
  at_most_one x -> at_most_one (round_float x).
Proof.
  destruct x as [sx | sx | | sx m e]; cbn [round_float]; intros H;
    try exact H.
  apply normalize_at_most_one; [lia | | | exact H]; vm_compute; discriminate.
Qed.


(** The decay keeps Energy and Tegument numbers. *)
Lemma decay_not_nan (v : float) :
  is_nan v = false ->
  is_nan (energy_decay v) = false /\ is_nan (tegument_decay v) = false.
Proof.
  intros H. unfold energy_decay, tegument_decay, float_of_double, double_of_float, dsub.
  assert (E : exists m e, double_lit 4 1000 = S754_finite false m e)
    by (vm_compute; eauto).
  assert (T : exists m e, double_lit 15 10000 = S754_finite false m e)
    by (vm_compute; eauto).
  destruct E as (m1 & e1 & ->). destruct T as (m2 & e2 & ->).
  split; apply round_float_not_nan, SFsub_finite_not_nan, round_double_not_nan, H.
Qed.

(** Erosion by a level that is not negative keeps Integrity at most 1. *)
Lemma eroded_at_most_one (level v : float) :
  signed false level -> at_most_one v -> at_most_one (eroded level v).
Proof.
  intros Hl Hv. unfold eroded, float_of_double, double_of_float, dsub, dmul.
  assert (E : exists m e, double_lit 1 100 = S754_finite false m e)
    by (vm_compute; eauto).
  destruct E as (m & e & ->).
  apply round_float_at_most_one, SFsub_at_most_one.
  - lia.
  - vm_compute. discriminate.
  - vm_compute. discriminate.
  - apply round_double_at_most_one, Hv.
  - apply (SFmul_finite_signed 53 1024 false false), round_double_signed, Hl.
Qed.

Lemma doubled_signed (c : float) :
  signed false c -> signed false (fmul c (float_of_int 2)).
Proof.
  intros H. unfold fmul.
  change (float_of_int 2) with (S754_finite false 8388608 (-22)).
  apply (SFmul_finite_signed 24 128 false false), H.
Qed.

Lemma circ_unit_signed : signed false circ_unit.
Proof. vm_compute. reflexivity. Qed.

(** A speed that passes the test [speed[i] > 0.05] is not negative. *)
Lemma above_threshold_signed (v : float) :
  gt (double_of_float v) (double_lit 5 100) = true -> signed false v.
Proof.
  unfold gt, double_of_float.
  assert (E : exists m e, double_lit 5 100 = S754_finite false m e)
    by (vm_compute; eauto).
  destruct E as (m & e & ->).
  destruct v as [s | s | | s mv ev]; cbn [round_double signed].
  - discriminate.
  - destruct s; [discriminate | reflexivity].
  - discriminate.
  - intros H. pose proof (normalize_signed 53 1024 s mv ev) as S.
    destruct (binary_normalize 53 1024 (cond_Zopp s (Zpos mv)) ev s)
      as [sx | sx | | sx mx ex]; cbn [signed] in S; try contradiction; subst sx.
    + discriminate H.
    + destruct s; [discriminate H | reflexivity].
    + destruct s; [discriminate H | reflexivity].
Qed.

(** ** The need variables stay numbers *)

Lemma needs_of_body (a b : state) : body a = body b -> needs a = needs b.
Proof.
  intros H. apply body_fields in H.
  destruct H as (He & Ht & Hi & _ & _ & _ & Hc).
  unfold needs. rewrite He, Ht, Hi, Hc. reflexivity.
Qed.

Lemma numeric_of_needs (a b : state) : needs a = needs b -> numeric a -> numeric b.
Proof.
  unfold needs, numeric. intros H. inversion H as [[He Ht Hi Hc]].
  rewrite He, Ht, Hi, Hc. exact (fun N => N).
Qed.

Lemma numeric_of_body (a b : state) : body a = body b -> numeric a -> numeric b.
Proof. intros H. apply numeric_of_needs, needs_of_body, H. Qed.

Lemma numeric_initial (garbage : nat -> float) : numeric (initial_state garbage).
Proof.
  unfold numeric, initial_state. cbn [var_energy var_tegument var_integrity circ_speed].
  split; [reflexivity |]. split; [reflexivity |].
  split; [left; vm_compute; split; discriminate |].
  repeat constructor.
Qed.

Lemma numeric_get_sensors (raw : list Z) (st : state) :
  numeric st -> numeric (get_sensors raw st).
Proof.
  unfold get_sensors. apply for_loop_ind.
  intros i a. apply numeric_of_needs. destruct_state a. reflexivity.
Qed.

Lemma numeric_get_sensors_history (st : state) :
  numeric st -> numeric (get_sensors_history st).
Proof.
  unfold get_sensors_history. apply for_loop_ind.
  intros i a. apply numeric_of_needs. destruct_state a. reflexivity.
Qed.

Lemma numeric_decrease (st : state) :
  numeric st -> numeric (decrease_physoligical_variables st).
Proof.
  intros (He & Ht & Hi & Hc).
  destruct (decay_not_nan _ He) as [He' _].
  destruct (decay_not_nan _ Ht) as [_ Ht'].
  revert He' Ht' Hi Hc. unfold numeric, energy_decay, tegument_decay.
  destruct_state st. unfold decrease_physoligical_variables. state_fields.
  intros He' Ht' Hi Hc. split_conj; assumption.
Qed.

Lemma numeric_set_var_integrity (v : float) (st : state) :
  at_most_one v -> numeric st -> numeric (set_var_integrity v st).
Proof.
  unfold numeric. destruct_state st. state_fields.
  intros Hv (He & Ht & _ & Hc). split_conj; assumption.
Qed.

Lemma numeric_induce_damage (level : float) (st : state) :
  signed false level -> numeric st -> numeric (induce_damage level st).
Proof.
  intros Hl N.
  apply (numeric_of_body _ _ (eq_sym (body_induce_damage level st))).
  apply numeric_set_var_integrity; [| exact N].
  apply eroded_at_most_one; [exact Hl | apply N].
Qed.

Lemma numeric_set_circ_speed (l : list float) (st : state) :
  Forall (signed false) l -> numeric st -> numeric (set_circ_speed l st).
Proof.
  unfold numeric. destruct_state st. state_fields.
  intros Hl (He & Ht & Hi & _). split_conj; assumption.
Qed.

Lemma numeric_upd_circ_speed (i : nat) (c : float) (st : state) :
  signed false c -> numeric st ->
  numeric (set_circ_speed (upd i c (circ_speed st)) st).
Proof.
  intros Hc N. apply numeric_set_circ_speed; [| exact N].
  apply Forall_upd; [exact Hc | apply N].
Qed.

Lemma numeric_circ_speed (i : nat) (st : state) :
  numeric st -> signed false (nth i (circ_speed st) fzero).
Proof.
  intros (_ & _ & _ & Hs). apply Forall_nth_default; [reflexivity | exact Hs].
Qed.

Lemma numeric_circ_damage (st : state) :
  numeric st -> numeric (snd (circ_damage st)).
Proof.
  intros N. unfold circ_damage. cbv beta iota zeta delta [snd].
  apply for_loop_ind.
  { intros i a Na. apply numeric_induce_damage; [| exact Na].
    apply numeric_circ_speed, Na. }
  unfold circ_spread. apply for_loop_ind.
  { intros i a Na. cbv zeta.
    match goal with
    | |- context [if ?c then _ else _] => destruct c
    end; [| exact Na].
    apply numeric_upd_circ_speed.
    - apply doubled_signed, numeric_circ_speed.
      apply numeric_upd_circ_speed; [| exact Na].
      apply doubled_signed, numeric_circ_speed, Na.
    - apply numeric_upd_circ_speed; [| exact Na].
      apply doubled_signed, numeric_circ_speed, Na. }
  unfold circ_measure. cbv zeta. apply for_loop_ind; [| exact N].
  intros i a Na.
  match goal with
  | |- context [if ?c then _ else _] => destruct c
  end; [| exact Na].
  apply numeric_upd_circ_speed; [exact circ_unit_signed | exact Na].
Qed.

Lemma numeric_speed_damage (st : state) :
  numeric st -> numeric (snd (speed_damage st)).
Proof.
  intros N. unfold speed_damage.
  match goal with
  | |- context [for_loop 0 8 ?f st] =>
      assert (L1 : numeric (for_loop 0 8 f st));
      [| set (st1 := for_loop 0 8 f st) in * ]
  end.
  { apply for_loop_ind; [| exact N].
    intros i a Na. cbv zeta.
    match goal with
    | |- context [if ?c then _ else _] => destruct c
    end; (eapply numeric_of_needs; [| exact Na]); destruct_state a; reflexivity. }
  clearbody st1.
  assert (L2 : numeric (set_indet_read (S (indet_read st1)) st1)).
  { eapply numeric_of_needs; [| exact L1]. destruct_state st1. reflexivity. }
  cbv beta iota zeta delta [read_indet].
  match goal with
  | |- context [if ?c then _ else _] => destruct c
  end; cbv beta iota delta [snd]; [| exact L2].
  apply for_loop_ind; [| exact L2].
  intros i a Na.
  destruct (gt (double_of_float (nth i (speed a) fzero)) (double_lit 5 100)) eqn:G;
    [| exact Na].
  apply numeric_induce_damage; [| exact Na].
  apply above_threshold_signed, G.
Qed.

(** Every pass keeps the need variables numbers, whatever the sensors
    deliver and whatever the unassigned objects hold. *)
Lemma numeric_tick (raw : list Z) (st : state) : numeric st -> numeric (tick raw st).
Proof.
  intros N. unfold tick. cbv zeta.
  apply (numeric_of_body _ _ (eq_sym (body_emit _ _))).
  apply numeric_get_sensors_history.
  unfold move.
  apply (numeric_of_body _ _ (eq_sym (body_emit _ _))).
  apply (numeric_of_body _ _ (eq_sym (body_compute_speed _ _))).
  rewrite update_vars_1.
  apply (numeric_of_body _ _ (eq_sym (body_recompute _))).
  apply numeric_speed_damage, numeric_circ_damage, numeric_get_sensors,
    numeric_decrease, N.
Qed.

Lemma numeric_no_nan (st : state) : numeric st -> no_nan_variable st.
Proof.
  intros (He & Ht & Hi & _). split; [exact He |]. split; [exact Ht |].
  apply at_most_one_not_nan, Hi.
Qed.

Lemma numeric_steps (a b : phase * state) :
  steps a b -> numeric (snd a) -> numeric (snd b).
Proof.
  induction 1 as [c | a b c Hab _ IH]; intros N; [exact N |].
  apply IH. destruct Hab as [raw st _ | st _]; cbn [snd] in *.
  - apply numeric_tick, N.
  - unfold shutdown, death_animation, stop_moving.
    apply (numeric_of_body _ _ (eq_sym (body_emit _ _))).
    apply (numeric_of_body _ _ (eq_sym (body_emit _ _))). exact N.
Qed.

(** No state that the loop reaches holds a NaN in a need variable. *)
Lemma reachable_no_nan (st : state) : reachable st -> no_nan_variable st.
Proof.
  intros (garbage & first & H). apply numeric_no_nan.
  apply (numeric_steps _ _ H). cbn [snd].
  apply numeric_get_sensors, numeric_initial.
Qed.

Lemma steps_snoc (a b c : phase * state) : steps a b -> step b c -> steps a c.
Proof.
  induction 1 as [x | x y z Hxy _ IH]; intros H.
  - eapply steps_cons; [exact H | apply steps_refl].
  - eapply steps_cons; [exact Hxy | apply IH, H].
Qed.

(** ** The loop of [model] on its frames *)

Lemma reachable_tick (raw : list Z) (st : state) :
  reachable st -> loop_cond st = true -> reachable (tick raw st).
Proof.
  intros (garbage & first & H) C. exists garbage, first.
  eapply steps_snoc; [exact H | apply step_tick, C].
Qed.

(** Run from a state that the loop reaches, [model_loop] either uses up
    its frames in a reachable state whose three variables are positive, or
    halts in a reachable state one of whose variables is <= 0. *)
Lemma model_loop_outcome (frames : list (list Z)) :
  forall st, reachable st ->
    (forall st', model_loop frames st = (Running, st') ->
       reachable st' /\ all_positive st')
    /\ (forall st', model_loop frames st = (Terminated, st') ->
          exists last,
            reachable last /\ some_nonpositive last /\ st' = shutdown last).
Proof.
  induction frames as [| raw rest IH]; intros st R;
    destruct (loop_cond st) eqn:E.
  - rewrite (model_loop_out_of_frames st E). split; intros st' H.
    + inversion H; subst. split; [exact R | apply loop_cond_true_iff, E].
    + discriminate H.
  - rewrite (model_loop_halt [] st E). split; intros st' H.
    + discriminate H.
    + inversion H; subst. exists st. split; [exact R |].
      split; [| reflexivity].
      apply (loop_cond_false_iff st (reachable_no_nan st R)), E.
  - rewrite (model_loop_pass raw rest st E).
    apply IH, reachable_tick; assumption.
  - rewrite (model_loop_halt (raw :: rest) st E). split; intros st' H.
    + discriminate H.
    + inversion H; subst. exists st. split; [exact R |].
      split; [| reflexivity].
      apply (loop_cond_false_iff st (reachable_no_nan st R)), E.
Qed.

(** C2. The loop makes another pass exactly when the three variables are
    strictly positive, and otherwise moves to [Terminated]; when no
    variable is a NaN, and so in every state that [model] reaches, that is
    exactly when some variable is <= 0. This holds of the transitions of the
    loop and of [model_loop], the loop as it runs on the frames: with the
    three variables positive it makes the pass on the next frame and goes
    on from the state the pass leaves, otherwise it halts at once whatever
    frames remain; what it returns is reached by transitions of the loop,
    is still running only with the three variables positive, and is
    terminated only after a state with a variable <= 0. Terminating appends
    the stop command and then the death animation to the outgoing calls
    and changes nothing else, and a terminated configuration has no
    successor. *)
Theorem model_runs_iff_all_positive (st : state) :
  ((exists st', step (Running, st) (Running, st')) <-> all_positive st)
  /\ ((exists st', step (Running, st) (Terminated, st')) <-> ~ all_positive st)
  /\ (no_nan_variable st ->
      ((exists st', step (Running, st) (Terminated, st')) <-> some_nonpositive st))
  /\ (forall st', step (Running, st) (Terminated, st') ->
        st' = shutdown st
        /\ trace st' = trace st ++ [StopMoving; DeathAnimation])
  /\ (forall c, ~ step (Terminated, st) c)
  /\ (forall frames, ~ all_positive st ->
        model_loop frames st = (Terminated, shutdown st))
  /\ (all_positive st ->
      model_loop [] st = (Running, st)
      /\ forall raw rest,
          model_loop (raw :: rest) st = model_loop rest (tick raw st))
  /\ (forall frames, fst (model_loop frames st) = Running -> all_positive st)
  /\ (forall frames, steps (Running, st) (model_loop frames st))
  /\ (forall frames,
        fst (model_loop frames st) = Terminated ->
        exists calls,
          trace (snd (model_loop frames st))
          = calls ++ [StopMoving; DeathAnimation])
  /\ (reachable st ->
      no_nan_variable st
      /\ ((exists st', step (Running, st) (Terminated, st'))
          <-> some_nonpositive st)
      /\ (some_nonpositive st
          <-> forall frames, model_loop frames st = (Terminated, shutdown st))
      /\ (forall frames st',
            model_loop frames st = (Running, st') ->
            reachable st' /\ all_positive st')
      /\ (forall frames st',
            model_loop frames st = (Terminated, st') ->
            exists last,
              reachable last /\ some_nonpositive last /\ st' = shutdown last)).
Proof.
  assert (Hrun : (exists st', step (Running, st) (Running, st'))
                 <-> loop_cond st = true).
  { split.
    - intros [st' H]. apply step_running_inv in H.
      destruct H as [[H _] | [_ H]]; [assumption | discriminate].
    - intros H. exists (tick [] st). apply step_tick. assumption. }
  assert (Hhalt : (exists st', step (Running, st) (Terminated, st'))
                  <-> loop_cond st = false).
  { split.
    - intros [st' H]. apply step_running_inv in H.
      destruct H as [[_ [raw H]] | [H _]]; [discriminate | assumption].
    - intros H. exists (shutdown st). apply step_halt. assumption. }
  assert (Hneg : ~ all_positive st <-> loop_cond st = false).
  { rewrite <- loop_cond_true_iff.
    destruct (loop_cond st); split; intros H; congruence. }
  assert (Hall : loop_cond st = false
                 <-> forall frames, model_loop frames st = (Terminated, shutdown st)).
  { split.
    - intros E frames. apply model_loop_halt, E.
    - intros H. specialize (H []).
      destruct (loop_cond st) eqn:E; [| reflexivity].
      rewrite (model_loop_out_of_frames st E) in H. discriminate H. }
  refine (conj _ (conj _ (conj _ (conj _ (conj _ (conj _ (conj _ (conj _
            (conj _ (conj _ _)))))))))).
  - rewrite Hrun. apply loop_cond_true_iff.
  - rewrite Hhalt. symmetry. exact Hneg.
  - intros N. rewrite Hhalt. apply loop_cond_false_iff, N.
  - intros st' H. apply step_running_inv in H.
    destruct H as [[_ [raw H]] | [_ H]]; [discriminate |].
    inversion H; subst. split; [reflexivity | apply trace_shutdown].
  - intros c H. inversion H.
  - intros frames A. apply model_loop_halt, Hneg, A.
  - intros A. apply loop_cond_true_iff in A. split.
    + apply model_loop_out_of_frames, A.
    + intros raw rest. apply model_loop_pass, A.
  - intros frames R. apply loop_cond_true_iff.
    destruct (loop_cond st) eqn:E; [reflexivity |].
    rewrite (model_loop_halt frames st E) in R. discriminate R.
  - intros frames. apply model_loop_steps.
  - intros frames. apply model_loop_terminated_trace.
  - intros R. pose proof (reachable_no_nan st R) as N.
    split; [exact N |].
    split; [rewrite Hhalt; apply loop_cond_false_iff, N |].
    split; [rewrite <- Hall; symmetry; apply loop_cond_false_iff, N |].
    split; intros frames; apply (model_loop_outcome frames st R).
Qed.

(** The theorem at a state that [model] reaches with Integrity below zero:
    no variable is a NaN there, and the loop halts, whatever frames
    remain. *)
Lemma model_runs_iff_all_positive_witness :
  reachable worn_state
  /\ no_nan_variable worn_state
  /\ some_nonpositive worn_state
  /\ (exists st', step (Running, worn_state) (Terminated, st'))
  /\ (forall frames,
        model_loop frames worn_state = (Terminated, shutdown worn_state)).
Proof.
  assert (R : reachable worn_state).
  { exists calm_garbage, calm_frame.
    change (get_sensors calm_frame (initial_state calm_garbage)) with calm_start.
    apply (steps_snoc _ (Running, ticks wearing_frames calm_start)).
    - assert (E : model_loop wearing_frames calm_start
                  = (Running, ticks wearing_frames calm_start))
        by (vm_compute; reflexivity).
      rewrite <- E. apply model_loop_steps.
    - apply step_tick. vm_compute. reflexivity. }
  assert (S : some_nonpositive worn_state)
    by (right; right; vm_compute; reflexivity).
  destruct (model_runs_iff_all_positive worn_state)
    as (_ & _ & H3 & _ & _ & _ & _ & _ & _ & _ & H).
  destruct (H R) as (N & _ & Hloop & _).
  split; [exact R |]. split; [exact N |]. split; [exact S |].
  split; [apply (H3 N), S | apply Hloop, S].
Defined.
